(** * Claims Guardian AI: the claim form, the page handlers and the
      validation core, embedded and verified.

    The front end (ClaimInput, Home, ChatInterface) is embedded from its
    TypeScript source.  JavaScript strings are sequences of UTF-16 code
    units, JavaScript numbers are IEEE 754 binary64 values, taken from
    the Standard Library's [SpecFloat] with precision 53 and maximal
    exponent 1024, so that [+], [*], [parseInt] and [parseFloat] round
    the way the engine does. *)

From Stdlib Require Import String Ascii.
From Stdlib Require Import ZArith NArith PArith List Bool Lia.
From Stdlib Require Import Floats.SpecFloat.
From Stdlib Require Import Sorting.Permutation Sorting.Sorted.
From stdpp Require gmap.
Import ListNotations.

Set Implicit Arguments.

(* ================================================================== *)
(** * JavaScript strings and numbers *)
(* ================================================================== *)

Module JS.

Local Open Scope N_scope.

(** A string is a list of UTF-16 code units. *)
Definition code_unit := N.
Definition jsstring := list code_unit.

(** A literal of the source, written in Rocq as an ASCII string. *)
Definition str (s : string) : jsstring :=
  map N_of_ascii (list_ascii_of_string s).

Definition comma : code_unit := 44.
Definition minus_sign : code_unit := 45.
Definition plus_sign : code_unit := 43.
Definition full_stop : code_unit := 46.

(** WhiteSpace and LineTerminator of ECMA-262, the code units that
    [String.prototype.trim], [parseInt] and [parseFloat] strip. *)
Definition isWhiteSpace (c : code_unit) : bool :=
  existsb (N.eqb c)
    [9; 10; 11; 12; 13; 32; 160; 5760; 8232; 8233; 8239; 8287; 12288; 65279]
  || ((8192 <=? c) && (c <=? 8202)).

Fixpoint trimStart (s : jsstring) : jsstring :=
  match s with
  | [] => []
  | c :: r => if isWhiteSpace c then trimStart r else s
  end.

Definition trimEnd (s : jsstring) : jsstring := rev (trimStart (rev s)).

Definition trim (s : jsstring) : jsstring := trimEnd (trimStart s).

(** [s.split(',')]: the pieces between the commas; never an empty array. *)
Fixpoint split_comma (s : jsstring) : list jsstring :=
  match s with
  | [] => [[]]
  | c :: r =>
      if c =? comma then [] :: split_comma r
      else match split_comma r with
           | piece :: pieces => (c :: piece) :: pieces
           | [] => [[c]]
           end
  end.

(** A string is truthy when it is not empty. *)
Definition truthy_string (s : jsstring) : bool :=
  match s with [] => false | _ :: _ => true end.

(** ** Numbers *)

Definition number := spec_float.

Definition prec : Z := 53.
Definition emax : Z := 1024.

Definition zero : number := S754_zero false.
Definition NaN : number := S754_nan.
Definition Infinity : number := S754_infinity false.

Definition add : number -> number -> number := SFadd prec emax.
Definition mul : number -> number -> number := SFmul prec emax.

(** The double nearest to an integer (ties to even, overflow to an
    infinity). *)
Definition of_Z (z : Z) : number := binary_normalize prec emax z 0 false.

Definition one : number := of_Z 1.

(** ToBoolean on a number: NaN, +0 and -0 are falsy. *)
Definition truthy (x : number) : bool :=
  match x with
  | S754_nan | S754_zero _ => false
  | S754_infinity _ | S754_finite _ _ _ => true
  end.

(** [x || y] on numbers. *)
Definition or_else (x y : number) : number := if truthy x then x else y.

(** [0 < x], [0 <= x] and integrality, as the engine's comparison and
    [Number.isInteger] decide them. *)
Definition is_positive (x : number) : bool := SFltb zero x.
Definition is_nonnegative (x : number) : bool := SFleb zero x.

Definition isInteger (x : number) : bool :=
  match x with
  | S754_zero _ => true
  | S754_finite _ m e =>
      if (0 <=? e)%Z then true
      else (Z.pos m mod 2 ^ (- e) =? 0)%Z
  | S754_infinity _ | S754_nan => false
  end.

(** ** Numerals *)

(** The value of a code unit as a digit of the given radix. *)
Definition digit_value (radix : N) (c : code_unit) : option N :=
  let d :=
    if (48 <=? c) && (c <=? 57) then Some (c - 48)
    else if (97 <=? c) && (c <=? 122) then Some (c - 87)
    else if (65 <=? c) && (c <=? 90) then Some (c - 55)
    else None in
  match d with
  | Some v => if v <? radix then Some v else None
  | None => None
  end.

(** The longest prefix of digits, as digit values, and what follows it. *)
Fixpoint digits_prefix (radix : N) (s : jsstring) : list N * jsstring :=
  match s with
  | [] => ([], [])
  | c :: r =>
      match digit_value radix c with
      | Some v => let (ds, rest) := digits_prefix radix r in (v :: ds, rest)
      | None => ([], s)
      end
  end.

Definition digits_value (radix : N) (ds : list N) : N :=
  fold_left (fun acc d => acc * radix + d) ds 0.

(** An optional sign: whether it is a minus, and what follows it. *)
Definition read_sign (s : jsstring) : bool * jsstring :=
  match s with
  | c :: r =>
      if c =? minus_sign then (true, r)
      else if c =? plus_sign then (false, r)
      else (false, s)
  | [] => (false, [])
  end.

Definition signed (neg : bool) (n : N) : Z :=
  if neg then (- Z.of_N n)%Z else Z.of_N n.

(** [parseInt(s)] with no radix argument (ECMA-262, 19.2.5): leading
    white space, a sign, a [0x] or [0X] prefix that selects radix 16,
    then the longest run of digits; NaN when that run is empty. *)
Definition parseInt (s : jsstring) : number :=
  let (neg, s1) := read_sign (trimStart s) in
  let (radix, s2) :=
    match s1 with
    | c0 :: c1 :: r =>
        if (c0 =? 48) && ((c1 =? 120) || (c1 =? 88)) then (16, r)
        else (10, s1)
    | _ => (10, s1)
    end in
  let (ds, _) := digits_prefix radix s2 in
  match ds with
  | [] => NaN
  | _ :: _ =>
      let mathInt := digits_value radix ds in
      if mathInt =? 0 then S754_zero neg else of_Z (signed neg mathInt)
  end.

Fixpoint starts_with (p s : jsstring) : bool :=
  match p, s with
  | [], _ => true
  | _ :: _, [] => false
  | a :: p', b :: s' => (a =? b) && starts_with p' s'
  end.

(** The exponent part [e], [E] followed by an optionally signed run of
    digits; an [e] that no digit follows is not part of the numeral. *)
Definition exponent_part (s : jsstring) : Z :=
  match s with
  | c :: r =>
      if (c =? 101) || (c =? 69) then
        let (neg, r1) := read_sign r in
        let (ds, _) := digits_prefix 10 r1 in
        match ds with
        | [] => 0%Z
        | _ :: _ => signed neg (digits_value 10 ds)
        end
      else 0%Z
  | [] => 0%Z
  end.

(** The double nearest to [m * 10 ^ e10], with the sign [neg]. *)
Definition decimal_to_number (neg : bool) (m : N) (e10 : Z) : number :=
  match m with
  | N0 => S754_zero neg
  | Npos p =>
      if (0 <=? e10)%Z then
        binary_round prec emax neg (p * Z.to_pos (10 ^ e10)) 0
      else
        let '(q, e, l) :=
          SFdiv_core_binary prec emax (Z.pos p) 0 (10 ^ (- e10)) 0 in
        binary_round_aux prec emax neg q e l
  end.

(** [parseFloat(s)] (ECMA-262, 19.2.4): leading white space, then the
    longest prefix that is a StrDecimalLiteral; NaN when there is none. *)
Definition parseFloat (s : jsstring) : number :=
  let (neg, s1) := read_sign (trimStart s) in
  if starts_with (str "Infinity") s1 then S754_infinity neg
  else
    let (ip, r1) := digits_prefix 10 s1 in
    let (fp, r2) :=
      match r1 with
      | c :: r => if c =? full_stop then digits_prefix 10 r else ([], r1)
      | [] => ([], [])
      end in
    match ip ++ fp with
    | [] => NaN
    | _ :: _ =>
        decimal_to_number neg (digits_value 10 (ip ++ fp))
          (exponent_part r2 - Z.of_nat (length fp))
    end.

(** ** Predicates used to state what the parsers return *)

(** The sign carried by a number, NaN carrying none. *)
Definition has_sign (sx : bool) (x : number) : Prop :=
  match x with
  | S754_zero s | S754_infinity s | S754_finite s _ _ => s = sx
  | S754_nan => True
  end.

(** What [parseInt] returns: NaN, a signed zero, or a rounded integer. *)
Inductive parsed_integer (neg : bool) : number -> Prop :=
  | parsed_int_nan : parsed_integer neg NaN
  | parsed_int_zero : parsed_integer neg (S754_zero neg)
  | parsed_int_round p :
      parsed_integer neg (binary_round prec emax neg p 0).

(** A code unit that is neither a comma nor white space. *)
Definition code_char (c : code_unit) : bool :=
  negb (c =? comma) && negb (isWhiteSpace c).

(** [a === b] on strings. *)
Fixpoint string_eqb (a b : jsstring) : bool :=
  match a, b with
  | [], [] => true
  | x :: a', y :: b' => (x =? y) && string_eqb a' b'
  | _, _ => false
  end.

(** ** Texts used to state what the form does with its input *)

(** [pieces.join(sep)] *)
Fixpoint join (sep : jsstring) (pieces : list jsstring) : jsstring :=
  match pieces with
  | [] => []
  | [piece] => piece
  | piece :: rest => piece ++ sep ++ join sep rest
  end.

Definition comma_free (s : jsstring) : bool :=
  forallb (fun c => negb (c =? comma)) s.

Fixpoint count_commas (s : jsstring) : nat :=
  match s with
  | [] => O
  | c :: r => if c =? comma then S (count_commas r) else count_commas r
  end.

(** The text of a decimal numeral, from its digits. *)
Definition numeral (ds : list N) : jsstring := map (fun d => 48 + d) ds.

Definition decimal_digits (ds : list N) : Prop :=
  ds <> [] /\ Forall (fun d => d < 10) ds.

(** The text does not go on with a decimal digit. *)
Definition no_digit_ahead (rest : jsstring) : Prop :=
  match rest with
  | [] => True
  | c :: _ => digit_value 10 c = None
  end.

(** [2^53], below which every integer is a double. *)
Definition safe_bound : N := 9007199254740992.

(** The number that a natural number is. *)
Definition num (n : N) : number := of_Z (Z.of_N n).

(** A mantissa shifted left, the shift that brings it to 53 bits, and
    the double of an integer below [2^53] written out. *)
Definition shl (p : positive) (n : nat) : positive := Nat.iter n xO p.

Definition room (p : positive) : nat :=
  Z.to_nat (53 - Z.pos (digits2_pos p)).

Definition canon (s : bool) (p : positive) : number :=
  S754_finite s (shl p (room p)) (- Z.of_nat (room p)).

End JS.

(* ================================================================== *)
(** * The browser's number input *)
(* ================================================================== *)

(** The units and charge fields are [<input type="number" required>]
    with a [min]; the form has no [noValidate], so the browser calls
    [onSubmit] only when every input satisfies its constraints (HTML,
    4.10.5.1.12 and 4.10.21.2). *)

Module NumberInput.

Import JS.

Local Open Scope N_scope.

(** A valid floating-point number (HTML, 2.3.4.3): an optional minus
    sign; digits, or a full stop and digits, or both; then optionally
    [e] or [E], an optional sign and digits; and nothing else. *)
Definition valid_exponent (s : jsstring) : bool :=
  match s with
  | [] => true
  | c :: r =>
      if (c =? 101) || (c =? 69) then
        let (ds, rest) := digits_prefix 10 (snd (read_sign r)) in
        match ds, rest with
        | _ :: _, [] => true
        | _, _ => false
        end
      else false
  end.

Definition valid_float (s : jsstring) : bool :=
  let s1 :=
    match s with
    | c :: r => if c =? minus_sign then r else s
    | [] => []
    end in
  let (ip, r1) := digits_prefix 10 s1 in
  match r1 with
  | c :: r =>
      if c =? full_stop then
        let (fp, r2) := digits_prefix 10 r in
        match fp with
        | [] => false
        | _ :: _ => valid_exponent r2
        end
      else
        match ip with
        | [] => false
        | _ :: _ => valid_exponent r1
        end
  | [] =>
      match ip with
      | [] => false
      | _ :: _ => true
      end
  end.

(** The number a value converts to (HTML, rules for parsing
    floating-point number values): on a valid floating-point number
    they read the sign, digits and exponent that [parseFloat] reads and
    round to the nearest double the same way, but -0 becomes 0 and a
    value that rounds beyond the finite doubles is an error.  [None] is
    the error, also for the empty value and a value that is no valid
    floating-point number. *)
Definition toNumber (value : jsstring) : option number :=
  if valid_float value then
    match parseFloat value with
    | S754_finite s m e => Some (S754_finite s m e)
    | S754_zero _ => Some zero
    | S754_infinity _ | S754_nan => None
    end
  else None.

(** The constraints [required] and [min]: the value is not empty,
    converts to a number, and that number is not below [min].  The
    [step] constraint narrows the accepted values further. *)
Definition accepted (min : number) (value : jsstring) : bool :=
  truthy_string value
  && match toNumber value with
     | Some x => SFleb min x
     | None => false
     end.


End NumberInput.

(* ================================================================== *)
(** * The types of [lib/types], as the components use them *)
(* ================================================================== *)

Module Types.

Import JS.

Inductive Gender := M | F.

Module Patient.
Record t := {
  name : jsstring;
  dob : jsstring;
  gender : Gender;
  insurance_id : jsstring
}.
End Patient.

Module Provider.
Record t := {
  name : jsstring;
  npi : jsstring;
  specialty : jsstring
}.
End Provider.

Record ProcedureCode := {
  cpt : jsstring;
  modifiers : list jsstring;
  units : number;
  charge : number
}.

Record Claim := {
  claim_id : jsstring;
  patient : Patient.t;
  provider : Provider.t;
  service_date : jsstring;
  diagnosis_codes : list jsstring;
  procedure_codes : list ProcedureCode;
  total_charge : number
}.

(** What a rejected promise carries: an [Error] with its message, or
    any other thrown value. *)
Inductive thrown :=
  | ErrorObject (message : jsstring)
  | OtherValue.

(** How an awaited request settles. *)
Inductive settled (A : Type) :=
  | Resolved (value : A)
  | Rejected (err : thrown).

Arguments Resolved {A} value.
Arguments Rejected {A} err.

(** [err instanceof Error ? err.message : fallback] *)
Definition message_or (fallback : jsstring) (err : thrown) : jsstring :=
  match err with
  | ErrorObject message => message
  | OtherValue => fallback
  end.

End Types.

(* ================================================================== *)
(** * components/ClaimInput *)
(* ================================================================== *)

Module ClaimInput.

Import JS.

(** The [formData] state. *)
Record FormData := {
  claim_id : jsstring;
  patient_name : jsstring;
  patient_dob : jsstring;
  patient_gender : Types.Gender;
  insurance_id : jsstring;
  provider_name : jsstring;
  provider_npi : jsstring;
  provider_specialty : jsstring;
  service_date : jsstring;
  diagnosis_codes : jsstring
}.

(** One row of the [procedures] state: the text of its four inputs. *)
Record ProcedureRow := {
  cpt : jsstring;
  modifiers : jsstring;
  units : jsstring;
  charge : jsstring
}.

(** The body of [procedures.map(p => ...)] in [handleSubmit]. *)
Definition procedureCode (p : ProcedureRow) : Types.ProcedureCode :=
  {| Types.cpt := cpt p;
     Types.modifiers :=
       if truthy_string (modifiers p)
       then map trim (split_comma (modifiers p))
       else [];
     Types.units := or_else (parseInt (units p)) one;
     Types.charge := or_else (parseFloat (charge p)) zero |}.

(** [procedureCodes.reduce((sum, p) => sum + p.charge * p.units, 0)] *)
Definition totalCharge (procedureCodes : list Types.ProcedureCode) : number :=
  fold_left
    (fun sum p => add sum (mul (Types.charge p) (Types.units p)))
    procedureCodes zero.

(** [s.split(',').map(c => c.trim()).filter(c => c)] *)
Definition diagnosisCodes (s : jsstring) : list jsstring :=
  List.filter truthy_string (map trim (split_comma s)).

(** [handleSubmit]: the claim handed to [onSubmit]. *)
Definition handleSubmit (formData : FormData) (procedures : list ProcedureRow)
  : Types.Claim :=
  let procedureCodes := map procedureCode procedures in
  let totalCharge := totalCharge procedureCodes in
  {| Types.claim_id := claim_id formData;
     Types.patient :=
       {| Types.Patient.name := patient_name formData;
          Types.Patient.dob := patient_dob formData;
          Types.Patient.gender := patient_gender formData;
          Types.Patient.insurance_id := insurance_id formData |};
     Types.provider :=
       {| Types.Provider.name := provider_name formData;
          Types.Provider.npi := provider_npi formData;
          Types.Provider.specialty := provider_specialty formData |};
     Types.service_date := service_date formData;
     Types.diagnosis_codes := diagnosisCodes (diagnosis_codes formData);
     Types.procedure_codes := procedureCodes;
     Types.total_charge := totalCharge |}.

(** The state that [loadSampleClaim] sets. *)
Definition sampleForm : FormData :=
  {| claim_id := str "CLM001";
     patient_name := str "John Doe";
     patient_dob := str "1985-05-15";
     patient_gender := Types.M;
     insurance_id := str "XYZ123456789";
     provider_name := str "Dr. Jane Smith";
     provider_npi := str "1234567890";
     provider_specialty := str "Family Medicine";
     service_date := str "2025-01-15";
     diagnosis_codes := str "E11.9" |}.

Definition sampleProcedures : list ProcedureRow :=
  [ {| cpt := str "99213"; modifiers := []; units := str "1";
       charge := str "135" |} ].

(** The state that [loadInvalidClaim] sets. *)
Definition invalidForm : FormData :=
  {| claim_id := str "CLM002";
     patient_name := str "Jane Test";
     patient_dob := str "2020-01-01";
     patient_gender := Types.F;
     insurance_id := str "TEST123456789";
     provider_name := str "Dr. Test";
     provider_npi := str "9999999999";
     provider_specialty := str "Testing";
     service_date := str "2025-01-15";
     diagnosis_codes := str "Z00.00" |}.

Definition invalidProcedures : list ProcedureRow :=
  [ {| cpt := str "99205"; modifiers := []; units := str "1";
       charge := str "500" |};
    {| cpt := str "99213"; modifiers := []; units := str "1";
       charge := str "135" |} ].

(** The form's own gate on the diagnosis field is the [required]
    attribute: the browser submits when the text is not empty. *)
Definition required (text : jsstring) : bool := truthy_string text.

(** The sum over the entries of charge times units, as the data model
    words it: the partial sums [S 0 = 0], [S (k+1) = S k + charge k *
    units k], taken over all entries. *)
Fixpoint partial_sum (ps : list Types.ProcedureCode) (k : nat) : number :=
  match k with
  | O => zero
  | S k' =>
      match nth_error ps k' with
      | Some p => add (partial_sum ps k') (mul (Types.charge p) (Types.units p))
      | None => partial_sum ps k'
      end
  end.

Definition sum_charge_units (ps : list Types.ProcedureCode) : number :=
  partial_sum ps (List.length ps).

(** The first code unit after leading white space is a minus sign. *)
Definition leading_minus (text : jsstring) : bool :=
  match trimStart text with
  | c :: _ => N.eqb c minus_sign
  | [] => false
  end.

(** A procedure entry as the data model wants it: a positive integer
    unit count and a non-negative charge. *)
Definition well_formed_entry (e : Types.ProcedureCode) : Prop :=
  is_positive (Types.units e) = true
  /\ isInteger (Types.units e) = true
  /\ is_nonnegative (Types.charge e) = true.

(** The [onChange] of the diagnosis field:
    [setFormData({ ...formData, diagnosis_codes: value })]. *)
Definition setDiagnosisCodes (formData : FormData) (value : jsstring)
  : FormData :=
  {| claim_id := claim_id formData;
     patient_name := patient_name formData;
     patient_dob := patient_dob formData;
     patient_gender := patient_gender formData;
     insurance_id := insurance_id formData;
     provider_name := provider_name formData;
     provider_npi := provider_npi formData;
     provider_specialty := provider_specialty formData;
     service_date := service_date formData;
     diagnosis_codes := value |}.

(** Rows used as test inputs. *)
Definition negativeRow : ProcedureRow :=
  {| cpt := str "99213"; modifiers := []; units := str "-5";
     charge := str "-3" |}.

Definition hugeUnitsRow : ProcedureRow :=
  {| cpt := str "99213"; modifiers := []; units := repeat 57%N 310;
     charge := str "135" |}.

(** The units input has [min="1"], the charge input [min="0"]. *)
Definition unitsAccepted (text : jsstring) : bool :=
  NumberInput.accepted one text.

Definition chargeAccepted (text : jsstring) : bool :=
  NumberInput.accepted zero text.


Definition tenthsRow : ProcedureRow :=
  {| cpt := str "99213"; modifiers := str "25, 59"; units := str "3";
     charge := str "0.1" |}.

(** ** The rows of the form and the buttons that edit them *)

(** The row the form starts with, and the one [addProcedure] appends:
    [{ cpt: '', modifiers: '', units: '1', charge: '' }]. *)
Definition emptyRow : ProcedureRow :=
  {| cpt := []; modifiers := []; units := str "1"; charge := [] |}.

(** The initial [procedures] state. *)
Definition initialProcedures : list ProcedureRow := [emptyRow].

(** [setProcedures([...procedures, emptyRow])] *)
Definition addProcedure (procedures : list ProcedureRow)
  : list ProcedureRow :=
  procedures ++ [emptyRow].

(** [l.filter((_, i) => keep(i))], counting from [i]. *)
Fixpoint filter_index {A} (keep : nat -> bool) (i : nat) (l : list A)
  : list A :=
  match l with
  | [] => []
  | x :: r =>
      if keep i then x :: filter_index keep (S i) r
      else filter_index keep (S i) r
  end.

(** [setProcedures(procedures.filter((_, i) => i !== index))] *)
Definition removeProcedure (index : nat) (procedures : list ProcedureRow)
  : list ProcedureRow :=
  filter_index (fun i => negb (Nat.eqb i index)) 0 procedures.

(** The keys [updateProcedure] is called with. *)
Inductive Field := cptField | modifiersField | unitsField | chargeField.

(** [{ ...row, [field]: value }] *)
Definition setField (row : ProcedureRow) (field : Field) (value : jsstring)
  : ProcedureRow :=
  match field with
  | cptField =>
      {| cpt := value; modifiers := modifiers row; units := units row;
         charge := charge row |}
  | modifiersField =>
      {| cpt := cpt row; modifiers := value; units := units row;
         charge := charge row |}
  | unitsField =>
      {| cpt := cpt row; modifiers := modifiers row; units := value;
         charge := charge row |}
  | chargeField =>
      {| cpt := cpt row; modifiers := modifiers row; units := units row;
         charge := value |}
  end.

(** [row[field]] *)
Definition getField (row : ProcedureRow) (field : Field) : jsstring :=
  match field with
  | cptField => cpt row
  | modifiersField => modifiers row
  | unitsField => units row
  | chargeField => charge row
  end.

Definition same_field (f g : Field) : bool :=
  match f, g with
  | cptField, cptField | modifiersField, modifiersField
  | unitsField, unitsField | chargeField, chargeField => true
  | _, _ => false
  end.

Fixpoint replace_at {A} (index : nat) (x : A) (l : list A) : list A :=
  match l, index with
  | [], _ => []
  | _ :: r, O => x :: r
  | y :: r, S i => y :: replace_at i x r
  end.

(** [updateProcedure]: a copy of the rows with the field of row [index]
    set.  Past the last row the copy would get a row whose other fields
    are undefined, which is no [ProcedureRow]: [None]. *)
Definition updateProcedure (index : nat) (field : Field) (value : jsstring)
    (procedures : list ProcedureRow) : option (list ProcedureRow) :=
  match nth_error procedures index with
  | Some row => Some (replace_at index (setField row field value) procedures)
  | None => None
  end.

(** What the user can do to the rows: the remove button of a row is
    rendered only while there is more than one row, and the inputs and
    buttons of a row exist only for the rows there are. *)
Inductive event :=
  | clickAdd
  | clickRemove (index : nat)
  | typeIn (index : nat) (field : Field) (value : jsstring)
  | clickLoadSample
  | clickLoadInvalid.

Definition step (procedures : list ProcedureRow) (ev : event)
  : option (list ProcedureRow) :=
  match ev with
  | clickAdd => Some (addProcedure procedures)
  | clickRemove index =>
      if (1 <? List.length procedures)%nat
         && (index <? List.length procedures)%nat
      then Some (removeProcedure index procedures)
      else None
  | typeIn index field value => updateProcedure index field value procedures
  | clickLoadSample => Some sampleProcedures
  | clickLoadInvalid => Some invalidProcedures
  end.

(** The rows after a series of events, from the rows [procedures];
    [None] when an event is not on offer. *)
Fixpoint after (events : list event) (procedures : list ProcedureRow)
  : option (list ProcedureRow) :=
  match events with
  | [] => Some procedures
  | ev :: rest =>
      match step procedures ev with
      | Some procedures' => after rest procedures'
      | None => None
      end
  end.

(** The text holds the decimal numeral of [n]. *)
Definition whole_number (text : jsstring) (n : N) : Prop :=
  exists ds, decimal_digits ds /\ text = numeral ds
             /\ digits_value 10 ds = n.

(** A row billing [u] units at a whole charge [c]. *)
Definition bills (row : ProcedureRow) (amount : N * N) : Prop :=
  whole_number (charge row) (fst amount)
  /\ whole_number (units row) (snd amount)
  /\ (0 < snd amount < safe_bound)%N.

Definition amount_due (amounts : list (N * N)) : N :=
  fold_right (fun a acc => (fst a * snd a + acc)%N) 0%N amounts.

(** A piece of the diagnosis text around a code: the code between two
    runs of white space. *)
Definition padded (code piece : jsstring) : Prop :=
  exists l r, forallb isWhiteSpace l = true
              /\ forallb isWhiteSpace r = true
              /\ piece = l ++ code ++ r.

(** A code as the user means it: not empty, no comma, no white space
    at either end. *)
Definition clean_code (c : jsstring) : Prop :=
  c <> [] /\ comma_free c = true /\ trim c = c.

End ClaimInput.

(* ================================================================== *)
(** * Event handlers: state setters around one awaited request *)
(* ================================================================== *)

Module Handler.

Import Types.

Section Programs.

Variables Act Req Resp St : Type.

(** An async handler: it calls state setters, awaits requests, and goes
    on with how each request settled. *)
Inductive handler :=
  | Done
  | Do (a : Act) (k : handler)
  | Await (r : Req) (k : settled Resp -> handler).

(** What a run of a handler leaves: the state, and the requests it
    issued, oldest first. *)
Record outcome := { final : St; requests : list Req }.

Variable apply : Act -> St -> St.
Variable api : Req -> settled Resp.

(** While a request is pending the component stays live; [meanwhile]
    are the setter calls of other handlers in that time. *)
Variable meanwhile : list Act.

Definition apply_all (acts : list Act) (s : St) : St :=
  fold_left (fun s a => apply a s) acts s.

Fixpoint run (h : handler) (s : St) : outcome :=
  match h with
  | Done => {| final := s; requests := [] |}
  | Do a k => run k (apply a s)
  | Await r k =>
      let o := run (k (api r)) (apply_all meanwhile s) in
      {| final := final o; requests := r :: requests o |}
  end.

End Programs.

Arguments Done {Act Req Resp}.
Arguments Do {Act Req Resp} a k.
Arguments Await {Act Req Resp} r k.

End Handler.

(* ================================================================== *)
(** * app/page: Home *)
(* ================================================================== *)

Module Home.

Import JS Types Handler.

Section Component.

(** The page stores the validation result and hands it on; it never
    looks inside. *)
Variable ValidationResult : Type.

Record State := {
  claim : option Claim;
  validationResult : option ValidationResult;
  isLoading : bool;
  error : option jsstring
}.

Inductive action :=
  | setClaim (c : option Claim)
  | setValidationResult (r : option ValidationResult)
  | setIsLoading (b : bool)
  | setError (e : option jsstring).

Definition apply (a : action) (s : State) : State :=
  match a with
  | setClaim c =>
      {| claim := c; validationResult := validationResult s;
         isLoading := isLoading s; error := error s |}
  | setValidationResult r =>
      {| claim := claim s; validationResult := r;
         isLoading := isLoading s; error := error s |}
  | setIsLoading b =>
      {| claim := claim s; validationResult := validationResult s;
         isLoading := b; error := error s |}
  | setError e =>
      {| claim := claim s; validationResult := validationResult s;
         isLoading := isLoading s; error := e |}
  end.

(** The one request of the page: [validateClaim(claimData)]. *)
Inductive request := validateClaim (claimData : Claim).

Definition initial : State :=
  {| claim := None; validationResult := None;
     isLoading := false; error := None |}.

(** [handleValidate]: try, catch and finally around the awaited call. *)
Definition handleValidate (claimData : Claim)
  : handler action request ValidationResult :=
  Do (setIsLoading true)
  (Do (setError None)
  (Await (validateClaim claimData) (fun settled =>
     match settled with
     | Resolved result =>
         Do (setClaim (Some claimData))
         (Do (setValidationResult (Some result))
         (Do (setIsLoading false) Done))
     | Rejected err =>
         Do (setError (Some (message_or (str "Validation failed") err)))
         (Do (setValidationResult None)
         (Do (setIsLoading false) Done))
     end))).

(** A submission of the form: the submit button is disabled while
    [isLoading], so nothing else writes the page state meanwhile. *)
Definition submit (api : request -> settled ValidationResult)
    (claimData : Claim) (s : State) : outcome request State :=
  run apply api [] (handleValidate claimData) s.

(** [<ClaimInput onSubmit={handleValidate} />]: submitting the form
    hands the claim built by [ClaimInput.handleSubmit] to
    [handleValidate]. *)
Definition submitForm (api : request -> settled ValidationResult)
    (formData : ClaimInput.FormData)
    (procedures : list ClaimInput.ProcedureRow) (s : State)
  : outcome request State :=
  submit api (ClaimInput.handleSubmit formData procedures) s.

(** ** What the page renders beside the form *)

(** [{error && <div>...{error}</div>}]: an empty message is falsy. *)
Definition showsError (s : State) : bool :=
  match error s with
  | Some message => truthy_string message
  | None => false
  end.

(** [validationResult && claim ? ... ]: the results with the chat,
    which is given [claim.claim_id] and the result. *)
Definition chatProps (s : State) : option (jsstring * ValidationResult) :=
  match validationResult s, claim s with
  | Some result, Some c => Some (Types.claim_id c, result)
  | _, _ => None
  end.

Definition showsResults (s : State) : bool :=
  match chatProps s with Some _ => true | None => false end.

(** [ ... : (!error && <div>Ready to Validate...</div>)] *)
Definition showsReady (s : State) : bool :=
  negb (showsResults s) && negb (showsError s).


End Component.

Arguments setClaim {ValidationResult} c.
Arguments setValidationResult {ValidationResult} r.
Arguments setIsLoading {ValidationResult} b.
Arguments setError {ValidationResult} e.

End Home.

(* ================================================================== *)
(** * components/ChatInterface *)
(* ================================================================== *)

Module Message.
Record t := { question : JS.jsstring; answer : JS.jsstring }.
End Message.

Module ChatInterface.

Import JS Types Handler.

Record State := {
  question : jsstring;
  conversation : list Message.t;
  isLoading : bool;
  error : option jsstring
}.

Inductive action :=
  | setQuestion (q : jsstring)
  | setConversation (c : list Message.t)
  | setIsLoading (b : bool)
  | setError (e : option jsstring).

Definition apply (a : action) (s : State) : State :=
  match a with
  | setQuestion q =>
      {| question := q; conversation := conversation s;
         isLoading := isLoading s; error := error s |}
  | setConversation c =>
      {| question := question s; conversation := c;
         isLoading := isLoading s; error := error s |}
  | setIsLoading b =>
      {| question := question s; conversation := conversation s;
         isLoading := b; error := error s |}
  | setError e =>
      {| question := question s; conversation := conversation s;
         isLoading := isLoading s; error := e |}
  end.

(** The one request of the component: [askQuestion(claimId, question)],
    whose response carries the answer. *)
Inductive request := askQuestion (claimId question : jsstring).

Record response := { answer : jsstring }.

Definition initial : State :=
  {| question := []; conversation := []; isLoading := false;
     error := None |}.

(** [handleAsk], closed over the [question] and [conversation] of the
    render that created it. *)
Definition handleAsk (claimId question : jsstring)
    (conversation : list Message.t) : handler action request response :=
  if negb (truthy_string (trim question)) then Done
  else
    Do (setIsLoading true)
    (Do (setError None)
    (Await (askQuestion claimId question) (fun settled =>
       match settled with
       | Resolved response =>
           Do (setConversation
                 (conversation ++
                  [ {| Message.question := question;
                       Message.answer := answer response |} ]))
           (Do (setQuestion [])
           (Do (setIsLoading false) Done))
       | Rejected err =>
           Do (setError (Some (message_or (str "Failed to get answer") err)))
           (Do (setIsLoading false) Done)
       end))).

(** While the request is pending the text input and the send button are
    disabled; the suggested questions, shown as long as the conversation
    is empty, stay clickable, and each click is a [setQuestion]. *)
Definition suggestion_clicks (qs : list jsstring) : list action :=
  map setQuestion qs.

(** Pressing send (or Enter) in the state [s]: the handler of the
    current render runs, with [clicks] on suggestions while it waits. *)
Definition send (api : request -> settled response) (claimId : jsstring)
    (clicks : list jsstring) (s : State) : outcome request State :=
  run apply api (suggestion_clicks clicks)
    (handleAsk claimId (question s) (conversation s)) s.

(** States used as test inputs: a first question typed, and a
    question of spaces over an earlier error. *)
Definition firstQuestion : State :=
  {| question := str "Why was this claim flagged?"; conversation := [];
     isLoading := false; error := None |}.

Definition blankQuestion : State :=
  {| question := str "   "; conversation := []; isLoading := false;
     error := Some (str "Failed to get answer") |}.

(** ** The controls of the chat *)

(** [disabled={isLoading || !question.trim()}] on the send button,
    [disabled={isLoading}] on the text input. *)
Definition sendDisabled (s : State) : bool :=
  isLoading s || negb (truthy_string (trim (question s))).

Definition inputDisabled (s : State) : bool := isLoading s.

(** [conversation.length > 0 ? messages : suggestions] *)
Definition suggestionsShown (s : State) : bool :=
  negb (0 <? List.length (conversation s))%nat.

(** What [handleKeyPress] reads of the keyboard event. *)
Record KeyboardEvent := { key : jsstring; shiftKey : bool }.

(** [handleKeyPress]: whether it calls [preventDefault], and what it
    runs. *)
Definition handleKeyPress (e : KeyboardEvent)
    (claimId question : jsstring) (conversation : list Message.t)
  : bool * handler action request response :=
  if string_eqb (key e) (str "Enter") && negb (shiftKey e)
  then (true, handleAsk claimId question conversation)
  else (false, Done).

(** A key pressed in the text input, in the state [s]. *)
Definition pressKey (api : request -> settled response)
    (claimId : jsstring) (e : KeyboardEvent) (clicks : list jsstring)
    (s : State) : outcome request State :=
  run apply api (suggestion_clicks clicks)
    (snd (handleKeyPress e claimId (question s) (conversation s))) s.

(** What the user does in the chat, one thing after the other: text
    into the question field (typed, or a suggestion clicked), the send
    button, a key in the input. *)
Inductive user :=
  | entersText (q : jsstring)
  | pressesSend (clicks : list jsstring)
  | pressesKey (e : KeyboardEvent) (clicks : list jsstring).

Definition does (api : request -> settled response) (claimId : jsstring)
    (s : State) (u : user) : State :=
  match u with
  | entersText q => apply (setQuestion q) s
  | pressesSend clicks => final (send api claimId clicks s)
  | pressesKey e clicks => final (pressKey api claimId e clicks s)
  end.

Definition session (api : request -> settled response) (claimId : jsstring)
    (us : list user) (s : State) : State :=
  fold_left (does api claimId) us s.

(** A message that the api answered: its question is not blank and its
    answer is what [askQuestion] resolved to. *)
Definition answered (api : request -> settled response)
    (claimId : jsstring) (m : Message.t) : Prop :=
  truthy_string (trim (Message.question m)) = true
  /\ exists r, api (askQuestion claimId (Message.question m)) = Resolved r
               /\ answer r = Message.answer m.

End ChatInterface.

(* ================================================================== *)
(** * components/ValidationResults *)
(* ================================================================== *)

Module ValidationResults.

Import JS.

(** The three classes of the summary card. *)
Record StatusColors := { bg : jsstring; border : jsstring; text : jsstring }.

(** [getStatusColor]: a switch on the status string. *)
Definition getStatusColor (status : jsstring) : StatusColors :=
  if string_eqb status (str "passed") then
    {| bg := str "bg-green-50"; border := str "border-green-200";
       text := str "text-green-800" |}
  else if string_eqb status (str "flagged") then
    {| bg := str "bg-yellow-50"; border := str "border-yellow-200";
       text := str "text-yellow-800" |}
  else if string_eqb status (str "rejected") then
    {| bg := str "bg-red-50"; border := str "border-red-200";
       text := str "text-red-800" |}
  else
    {| bg := str "bg-gray-50"; border := str "border-gray-200";
       text := str "text-gray-800" |}.

(** [getSeverityColor] *)
Definition getSeverityColor (severity : jsstring) : jsstring :=
  if string_eqb severity (str "critical") then
    str "bg-red-100 text-red-800 border-red-300"
  else if string_eqb severity (str "high") then
    str "bg-orange-100 text-orange-800 border-orange-300"
  else if string_eqb severity (str "medium") then
    str "bg-yellow-100 text-yellow-800 border-yellow-300"
  else if string_eqb severity (str "low") then
    str "bg-blue-100 text-blue-800 border-blue-300"
  else str "bg-gray-100 text-gray-800 border-gray-300".

(** The icons, as UTF-16: red, yellow and blue circle (U+1F534,
    U+1F7E1, U+1F535) and the white circle U+26AA. *)
Definition redCircle : jsstring := [55357; 56628]%N.
Definition yellowCircle : jsstring := [55357; 57313]%N.
Definition blueCircle : jsstring := [55357; 56629]%N.
Definition whiteCircle : jsstring := [9898]%N.

(** [getSeverityIcon]: critical falls through to high. *)
Definition getSeverityIcon (severity : jsstring) : jsstring :=
  if string_eqb severity (str "critical")
     || string_eqb severity (str "high") then redCircle
  else if string_eqb severity (str "medium") then yellowCircle
  else if string_eqb severity (str "low") then blueCircle
  else whiteCircle.

Definition known_status (status : jsstring) : bool :=
  string_eqb status (str "passed") || string_eqb status (str "flagged")
  || string_eqb status (str "rejected").

Definition known_severity (severity : jsstring) : bool :=
  string_eqb severity (str "critical") || string_eqb severity (str "high")
  || string_eqb severity (str "medium") || string_eqb severity (str "low").

End ValidationResults.

(* ================================================================== *)
(** * The validation core: orchestrator, scoring, conversation service *)
(* ================================================================== *)

(** The back end is described by the design document only; its modules
    are modelled here from the document's sections 3, 4.2 and 4.4. *)

Module Orchestrator.

Import JS Types.

(** Modelled from the spec: the ordered severities of a finding
    (orchestrator and validator sources are not part of the front end). *)
Inductive Severity := low | medium | high | critical.

Definition rank (s : Severity) : nat :=
  match s with low => 0 | medium => 1 | high => 2 | critical => 3 end.

(** Modelled from the spec: the severity weights of section 4.2. *)
Definition weight (s : Severity) : Z :=
  match s with
  | critical => 40
  | high => 25
  | medium => 12
  | low => 5
  end.

(** Modelled from the spec: a finding of section 3. *)
Record Finding := {
  agent_name : jsstring;
  issue_type : jsstring;
  severity : Severity;
  description : jsstring;
  cost_impact : option number;
  confidence_score : number;
  suggested_fix : option jsstring
}.

Inductive Status := passed | flagged | rejected.

(** Modelled from the spec: the validation result of section 3, without
    its processing duration. *)
Record ValidationResult := {
  claim_id : jsstring;
  overall_status : Status;
  risk_score : Z;
  issues : list Finding;
  total_cost_impact : number
}.

(** The one fatal condition of section 7: every validator failed. *)
Inductive fatal := all_validators_failed.

(** A finding tagged, at dispatch, with the registration index of its
    validator and its place in that validator's output. *)
Record tagged := { reg : nat; pos : nat; finding : Finding }.

Fixpoint tag_from (i j : nat) (fs : list Finding) : list tagged :=
  match fs with
  | [] => []
  | f :: r => {| reg := i; pos := j; finding := f |} :: tag_from i (S j) r
  end.

(** Modelled from the spec: the aggregation order of section 4.2,
    severity descending, then registration index, then place. *)
Definition comes_before (a b : tagged) : bool :=
  let ra := rank (severity (finding a)) in
  let rb := rank (severity (finding b)) in
  if (rb <? ra)%nat then true
  else if (ra <? rb)%nat then false
  else if (reg a <? reg b)%nat then true
  else if (reg b <? reg a)%nat then false
  else (pos a <=? pos b)%nat.

Fixpoint insert (x : tagged) (l : list tagged) : list tagged :=
  match l with
  | [] => [x]
  | y :: r => if comes_before x y then x :: l else y :: insert x r
  end.

Definition sort (l : list tagged) : list tagged := fold_right insert [] l.

Definition is_critical (f : Finding) : bool :=
  match severity f with critical => true | _ => false end.

(** Modelled from the spec: total cost impact, the sum of the cost
    impacts that are not null. *)
Definition total_cost (fs : list Finding) : number :=
  fold_left
    (fun sum f => match cost_impact f with
                  | Some c => add sum c
                  | None => sum
                  end)
    fs zero.

(** Modelled from the spec: overall status from the score and the
    presence of a critical finding (section 4.2). *)
Definition status_of (fs : list Finding) (score : Z) : Status :=
  if existsb is_critical fs || (90 <=? score)%Z then rejected
  else if (20 <=? score)%Z then flagged
  else passed.

Section Pipeline.

(** The document leaves the saturation term open: a function of the
    number of findings beyond the third. *)
Variable saturation : nat -> Z.

(** The registered validators, in registration order; [None] is a
    validator that threw or timed out. *)
Variable validators : list (Claim -> option (list Finding)).

Definition sum_weights (fs : list Finding) : Z :=
  fold_right (fun f acc => (weight (severity f) + acc)%Z) 0%Z fs.

(** Modelled from the spec: the risk score of section 4.2. *)
Definition score (fs : list Finding) : Z :=
  Z.min 100 (sum_weights fs + saturation (List.length fs - 3)).

(** The output of validator [i], a failed or unregistered one giving
    no findings. *)
Definition output (c : Claim) (i : nat) : list Finding :=
  match nth_error validators i with
  | Some v => match v c with Some fs => fs | None => [] end
  | None => []
  end.

(** The findings as they reach the fan-in point when the validators
    complete in the order [completion]. *)
Definition arrivals (completion : list nat) (c : Claim) : list tagged :=
  flat_map (fun i => tag_from i 0 (output c i)) completion.

Definition aggregate (completion : list nat) (c : Claim) : list tagged :=
  sort (arrivals completion c).

Definition all_failed (c : Claim) : bool :=
  forallb (fun v => match v c with None => true | Some _ => false end)
    validators.

(** Modelled from the spec: [validate] of section 4.2, for validators
    completing in the order [completion]. *)
Definition validate (completion : list nat) (c : Claim)
  : fatal + ValidationResult :=
  if all_failed c then inl all_validators_failed
  else
    let fs := map finding (aggregate completion c) in
    inr {| claim_id := Types.claim_id c;
           overall_status := status_of fs (score fs);
           risk_score := score fs;
           issues := fs;
           total_cost_impact := total_cost fs |}.

(** Every registered validator completes exactly once. *)
Definition completion_order (completion : list nat) : Prop :=
  Permutation completion (seq 0 (List.length validators)).

End Pipeline.

(** Findings and validators used as test doubles: the examples of the
    document's section 8. *)
Definition mismatch_finding : Finding :=
  {| agent_name := str "CPT-ICD Validator";
     issue_type := str "procedure_diagnosis_mismatch";
     severity := high;
     description := str "Procedure code mismatch with diagnosis";
     cost_impact := None;
     confidence_score := one;
     suggested_fix := None |}.

Definition cost_finding : Finding :=
  {| agent_name := str "Cost Analyzer";
     issue_type := str "cost_outlier";
     severity := medium;
     description := str "Charge above the reference charge";
     cost_impact := Some (of_Z 4000);
     confidence_score := one;
     suggested_fix := None |}.

Definition demographic_finding : Finding :=
  {| agent_name := str "Demographic Validator";
     issue_type := str "demographic_mismatch";
     severity := high;
     description := str "Pregnancy code for a male patient";
     cost_impact := None;
     confidence_score := one;
     suggested_fix := None |}.

Definition modifier_finding : Finding :=
  {| agent_name := str "Modifier Validator";
     issue_type := str "modifier_conflict";
     severity := critical;
     description := str "Left and right modifiers on one code";
     cost_impact := None;
     confidence_score := one;
     suggested_fix := None |}.

(** Five validators; the second one fails. *)
Definition sample_validators : list (Claim -> option (list Finding)) :=
  [ (fun _ => Some [mismatch_finding]);
    (fun _ => None);
    (fun _ => Some []);
    (fun _ => Some [demographic_finding]);
    (fun _ => Some [cost_finding; cost_finding]) ].

(** The same, with a modifier validator that finds a conflict. *)
Definition strict_validators : list (Claim -> option (list Finding)) :=
  [ (fun _ => Some [mismatch_finding]);
    (fun _ => None);
    (fun _ => Some [modifier_finding]);
    (fun _ => Some [demographic_finding]);
    (fun _ => Some [cost_finding; cost_finding]) ].

Definition sample_saturation (k : nat) : Z := 2 * Z.of_nat k.

Definition sample_claim : Claim :=
  ClaimInput.handleSubmit ClaimInput.sampleForm ClaimInput.sampleProcedures.

(** Severity descending, then registration index, then place. *)
Definition precedes (a b : tagged) : Prop :=
  (rank (severity (finding b)) < rank (severity (finding a)))%nat
  \/ (rank (severity (finding a)) = rank (severity (finding b))
      /\ ((reg a < reg b)%nat
          \/ (reg a = reg b /\ (pos a <= pos b)%nat))).

End Orchestrator.

Module ConversationService.

Import JS Types.
Import stdpp.gmap.

(** Modelled from the spec: the conversation context of section 3, the
    snapshots kept for a validated claim. *)
Record ConversationContext := {
  claim_snapshot : Claim;
  result_snapshot : Orchestrator.ValidationResult
}.

(** What happens to the retained contexts over the life of the
    process. *)
Inductive event :=
  | Validated (claimId : jsstring) (ctx : ConversationContext)
  | Evicted (claimId : jsstring)
  | Restarted.

(** Modelled from the spec: the store of section 6, with get, set and
    evict by claim id. *)
Definition step (store : gmap jsstring ConversationContext) (ev : event)
  : gmap jsstring ConversationContext :=
  match ev with
  | Validated claimId ctx => <[claimId := ctx]> store
  | Evicted claimId => delete claimId store
  | Restarted => ∅
  end.

Definition contexts_after (history : list event)
  : gmap jsstring ConversationContext :=
  fold_left step history ∅.

(** The failures of [ask] that section 7 tells apart. *)
Inductive failure := not_found | backend_failure | internal_error.

(** Modelled from the spec: [ask] of section 4.4; the language-model
    backend answers from the stored context and the question, or fails. *)
Definition ask
    (backend : ConversationContext -> jsstring -> option jsstring)
    (store : gmap jsstring ConversationContext)
    (claimId question : jsstring) : failure + jsstring :=
  match store !! claimId with
  | None => inl not_found
  | Some ctx =>
      match backend ctx question with
      | Some answer => inr answer
      | None => inl backend_failure
      end
  end.

(** Validation has been run for [claimId] and its context has not been
    evicted, nor the process restarted, since. *)
Definition retained (claimId : jsstring) (history : list event) : bool :=
  fold_left
    (fun kept ev =>
       match ev with
       | Validated id _ => if bool_decide (id = claimId) then true else kept
       | Evicted id => if bool_decide (id = claimId) then false else kept
       | Restarted => false
       end)
    history false.

(** A context and a history used as test inputs. *)
Definition sample_context : ConversationContext :=
  {| claim_snapshot := Orchestrator.sample_claim;
     result_snapshot :=
       {| Orchestrator.claim_id := Types.claim_id Orchestrator.sample_claim;
          Orchestrator.overall_status := Orchestrator.passed;
          Orchestrator.risk_score := 0;
          Orchestrator.issues := [];
          Orchestrator.total_cost_impact := zero |} |}.

Definition sample_history : list event :=
  [ Validated (str "CLM001") sample_context;
    Validated (str "CLM002") sample_context;
    Evicted (str "CLM001") ].

End ConversationService.

(* ================================================================== *)
(** * Facts about JavaScript strings and numbers *)
(* ================================================================== *)

Unset Implicit Arguments.

Module JSFacts.

Import JS.

(** ** Rounding to binary64 *)

Lemma fexp_binary64 e : fexp prec emax e = Z.max (e - 53) (-1074).
Proof. reflexivity. Qed.

Lemma digits2_pos_iter_xO (m d : positive) :
  digits2_pos (Pos.iter xO m d) = (digits2_pos m + d)%positive.
Proof.
  induction d using Pos.peano_ind.
  - simpl. lia.
  - rewrite Pos.iter_succ. simpl. rewrite IHd. lia.
Qed.

Lemma iter_xO_value (m d : positive) :
  Z.pos (Pos.iter xO m d) = (Z.pos m * 2 ^ Z.pos d)%Z.
Proof.
  induction d using Pos.peano_ind.
  - simpl. lia.
  - rewrite Pos.iter_succ, Pos2Z.inj_succ, Z.pow_succ_r by lia.
    rewrite Pos2Z.inj_xO, IHd. lia.
Qed.

(** A right shift never lowers the exponent. *)
Lemma shr_exponent mrs e n : (e <= snd (shr mrs e n))%Z.
Proof. destruct n; simpl; lia. Qed.

(** Rounding keeps the sign it is given, and never lowers the exponent. *)
Lemma binary_round_aux_finite sx mx ex lx s m e :
  binary_round_aux prec emax sx mx ex lx = S754_finite s m e ->
  s = sx /\ (ex <= e)%Z.
Proof.
  unfold binary_round_aux, shr_fexp.
  pose proof (shr_exponent (shr_record_of_loc mx lx) ex
                (fexp prec emax (Zdigits2 mx + ex) - ex)) as H1.
  destruct (shr _ ex _) as [mrs1 e1].
  pose proof (shr_exponent
    (shr_record_of_loc
       (round_nearest_even (shr_m mrs1) (loc_of_shr_record mrs1)) loc_Exact)
    e1
    (fexp prec emax
       (Zdigits2 (round_nearest_even (shr_m mrs1) (loc_of_shr_record mrs1))
        + e1) - e1)) as H2.
  destruct (shr _ e1 _) as [mrs2 e2].
  simpl in H1, H2.
  destruct (shr_m mrs2); try discriminate.
  destruct (e2 <=? emax - prec)%Z; try discriminate.
  intros H; inversion H; subst. split; [reflexivity | lia].
Qed.

Lemma binary_round_aux_sign sx mx ex lx :
  has_sign sx (binary_round_aux prec emax sx mx ex lx).
Proof.
  unfold binary_round_aux.
  destruct (shr_fexp prec emax mx ex lx) as [mrs1 e1].
  destruct (shr_fexp prec emax _ e1 loc_Exact) as [mrs2 e2].
  destruct (shr_m mrs2); simpl; auto.
  destruct (e2 <=? emax - prec)%Z; simpl; auto.
Qed.

Lemma binary_round_sign sx mx ex :
  has_sign sx (binary_round prec emax sx mx ex).
Proof.
  unfold binary_round.
  destruct (shl_align mx ex _) as [mz ez].
  apply binary_round_aux_sign.
Qed.

(** A mantissa already in canonical position is left alone. *)
Lemma shr_fexp_canonical (m : positive) (e : Z) :
  fexp prec emax (Z.pos (digits2_pos m) + e) = e ->
  shr_fexp prec emax (Z.pos m) e loc_Exact =
    ({| shr_m := Z.pos m; shr_r := false; shr_s := false |}, e).
Proof.
  intros H. unfold shr_fexp. simpl Zdigits2. rewrite H, Z.sub_diag.
  reflexivity.
Qed.

Lemma binary_round_aux_canonical sx (m : positive) (e : Z) :
  fexp prec emax (Z.pos (digits2_pos m) + e) = e ->
  binary_round_aux prec emax sx (Z.pos m) e loc_Exact =
    if (e <=? emax - prec)%Z then S754_finite sx m e else S754_infinity sx.
Proof.
  intros H. unfold binary_round_aux.
  rewrite (shr_fexp_canonical m e H). simpl shr_m. simpl loc_of_shr_record.
  simpl round_nearest_even.
  rewrite (shr_fexp_canonical m e H). reflexivity.
Qed.

(** The double nearest to an integer is an integer, whenever finite. *)
Lemma binary_round_integer sx mx s m e :
  binary_round prec emax sx mx 0 = S754_finite s m e ->
  isInteger (S754_finite s m e) = true.
Proof.
  unfold binary_round, shl_align.
  rewrite fexp_binary64.
  pose proof (Pos2Z.is_pos (digits2_pos mx)) as HD.
  destruct (Z.max (Z.pos (digits2_pos mx) + 0 - 53) (-1074) - 0)%Z
    as [|d|d] eqn:Hd.
  - intros H. apply binary_round_aux_finite in H. simpl.
    destruct H as [_ H]. apply Z.leb_le in H. rewrite H. reflexivity.
  - intros H. apply binary_round_aux_finite in H. simpl.
    destruct H as [_ H]. apply Z.leb_le in H. rewrite H. reflexivity.
  - rewrite binary_round_aux_canonical.
    + destruct (_ <=? _)%Z; try discriminate.
      intros H; inversion H; subst. simpl.
      destruct (0 <=? _)%Z; [reflexivity|].
      apply Z.eqb_eq. rewrite iter_xO_value.
      replace (- Z.max (Z.pos (digits2_pos mx) + 0 - 53) (-1074))%Z
        with (Z.pos d) by lia.
      apply Z.mod_mul. lia.
    + rewrite digits2_pos_iter_xO, fexp_binary64. lia.
Qed.

(** ** The shape of what the parsers return *)

Lemma parseInt_shape (s : jsstring) :
  parsed_integer (fst (read_sign (trimStart s))) (parseInt s).
Proof.
  unfold parseInt.
  destruct (read_sign (trimStart s)) as [neg s1]. simpl fst.
  destruct (match s1 with
            | c0 :: c1 :: r =>
                if ((c0 =? 48) && ((c1 =? 120) || (c1 =? 88)))%N
                then (16%N, r) else (10%N, s1)
            | _ => (10%N, s1)
            end) as [radix s2].
  destruct (digits_prefix radix s2) as [ds rest].
  destruct ds as [|d ds]; [constructor|].
  destruct (digits_value radix (d :: ds)) as [|p] eqn:Hv; simpl N.eqb.
  - constructor.
  - unfold of_Z, signed. destruct neg; simpl; constructor.
Qed.

Lemma decimal_to_number_sign neg m e10 :
  has_sign neg (decimal_to_number neg m e10).
Proof.
  unfold decimal_to_number. destruct m as [|p]; [reflexivity|].
  destruct (0 <=? e10)%Z.
  - apply binary_round_sign.
  - destruct (SFdiv_core_binary _ _ _ _ _ _) as [[q e] l].
    apply binary_round_aux_sign.
Qed.

Lemma parseFloat_sign (s : jsstring) :
  has_sign (fst (read_sign (trimStart s))) (parseFloat s).
Proof.
  unfold parseFloat.
  destruct (read_sign (trimStart s)) as [neg s1]. simpl fst.
  destruct (starts_with (str "Infinity") s1); [reflexivity|].
  destruct (digits_prefix 10 s1) as [ip r1].
  destruct (match r1 with
            | c :: r => if (c =? full_stop)%N then digits_prefix 10 r
                        else ([], r1)
            | [] => ([], [])
            end) as [fp r2].
  destruct (ip ++ fp); [exact I|].
  apply decimal_to_number_sign.
Qed.

Lemma parseInt_sign (s : jsstring) :
  has_sign (fst (read_sign (trimStart s))) (parseInt s).
Proof.
  destruct (parseInt_shape s); simpl; auto.
  apply binary_round_sign.
Qed.

(** The parsers on texts whose values are known: 0.1 is
    0x1.999999999999ap-4, the least subnormal is 2^-1074, and
    2^53 + 1 rounds to the even neighbour 2^53. *)
Example parseFloat_examples :
  parseFloat (str "0.1") = S754_finite false 7205759403792794 (-56)
  /\ parseFloat (str "135") = of_Z 135
  /\ parseFloat (str "  12.50abc") = parseFloat (str "12.5")
  /\ parseFloat (str "5.") = of_Z 5
  /\ parseFloat (str "1e") = one
  /\ parseFloat (str ".5e1") = of_Z 5
  /\ parseFloat (str "1e400") = Infinity
  /\ parseFloat (str "Infinity") = Infinity
  /\ parseFloat (str "-1e-400") = S754_zero true
  /\ parseFloat (str "5e-324") = S754_finite false 1 (-1074)
  /\ parseFloat (str ".") = NaN
  /\ parseFloat (str "abc") = NaN
  /\ parseFloat [] = NaN.
Proof. repeat split; vm_compute; reflexivity. Qed.

Example parseInt_examples :
  parseInt (str "1") = one
  /\ parseInt (str "1e2") = one
  /\ parseInt (str "1.9") = one
  /\ parseInt (str "0x1F") = of_Z 31
  /\ parseInt (str "  -5px") = of_Z (-5)
  /\ parseInt (str "-0") = S754_zero true
  /\ parseInt (str "9007199254740993") = of_Z 9007199254740992
  /\ parseInt (str "abc") = NaN
  /\ parseInt [] = NaN.
Proof. repeat split; vm_compute; reflexivity. Qed.

Example number_examples :
  of_Z 3 = S754_finite false 6755399441055744 (-51)
  /\ mul (parseFloat (str "0.1")) (of_Z 3)
     = parseFloat (str "0.30000000000000004")
  /\ add (of_Z 500) (of_Z 135) = of_Z 635
  /\ mul zero Infinity = NaN
  /\ or_else NaN one = one
  /\ or_else (of_Z (-5)) one = of_Z (-5)
  /\ isInteger (of_Z (-5)) = true
  /\ isInteger (parseFloat (str "0.5")) = false.
Proof. repeat split; vm_compute; reflexivity. Qed.

(** ** White space, trimming and splitting *)

Lemma trimStart_nil (s : jsstring) :
  trimStart s = [] <-> forallb isWhiteSpace s = true.
Proof.
  induction s as [|c r IH]; simpl.
  - tauto.
  - destruct (isWhiteSpace c); simpl; [exact IH|].
    split; discriminate.
Qed.

Lemma trimStart_blank (s : jsstring) :
  forallb isWhiteSpace (trimStart s) = forallb isWhiteSpace s.
Proof.
  induction s as [|c r IH]; simpl; [reflexivity|].
  destruct (isWhiteSpace c) eqn:Hc; simpl; [exact IH|].
  rewrite Hc. reflexivity.
Qed.

Lemma forallb_rev {A} (f : A -> bool) (l : list A) :
  forallb f (rev l) = forallb f l.
Proof.
  induction l as [|a l IH]; simpl; [reflexivity|].
  rewrite forallb_app, IH. simpl. rewrite andb_true_r. apply andb_comm.
Qed.

(** [s.trim()] is empty exactly when [s] is white space throughout. *)
Lemma trim_nil (s : jsstring) :
  trim s = [] <-> forallb isWhiteSpace s = true.
Proof.
  unfold trim, trimEnd.
  rewrite <- (trimStart_blank s), <- (forallb_rev _ (trimStart s)).
  rewrite <- trimStart_nil.
  split; intros H.
  - apply (f_equal (@rev _)) in H. rewrite rev_involutive in H. exact H.
  - rewrite H. reflexivity.
Qed.

Lemma truthy_trim (s : jsstring) :
  truthy_string (trim s) = negb (forallb isWhiteSpace s).
Proof.
  destruct (forallb isWhiteSpace s) eqn:H.
  - apply trim_nil in H. rewrite H. reflexivity.
  - destruct (trim s) eqn:Ht; [|reflexivity].
    apply trim_nil in Ht. congruence.
Qed.

Lemma split_comma_not_nil (s : jsstring) : split_comma s <> [].
Proof.
  induction s as [|c r IH]; simpl; [discriminate|].
  destruct (c =? comma)%N; [discriminate|].
  destruct (split_comma r); [contradiction|discriminate].
Qed.

Lemma split_comma_blank (s : jsstring) :
  existsb (fun piece => negb (forallb isWhiteSpace piece)) (split_comma s)
  = existsb code_char s.
Proof.
  induction s as [|c r IH]; simpl; [reflexivity|].
  unfold code_char at 1.
  destruct (c =? comma)%N eqn:Hc; simpl.
  - exact IH.
  - pose proof (split_comma_not_nil r) as Hne.
    destruct (split_comma r) as [|piece pieces]; [contradiction|].
    simpl in *. rewrite <- IH.
    destruct (isWhiteSpace c); simpl; reflexivity.
Qed.

(** ** Integers below 2^53 are computed with exactly *)

Lemma iter_pos_nat {A} (f : A -> A) (p : positive) (x : A) :
  iter_pos f p x = Nat.iter (Pos.to_nat p) f x.
Proof.
  revert x. induction p as [p IH|p IH|]; intros x; cbn [iter_pos].
  - rewrite !IH, Pos2Nat.inj_xI.
    replace (S (2 * Pos.to_nat p)) with (Pos.to_nat p + S (Pos.to_nat p))%nat by lia.
    rewrite Nat.iter_add, Nat.iter_succ_r. reflexivity.
  - rewrite !IH, Pos2Nat.inj_xO.
    replace (2 * Pos.to_nat p)%nat with (Pos.to_nat p + Pos.to_nat p)%nat by lia.
    rewrite Nat.iter_add. reflexivity.
  - reflexivity.
Qed.

Lemma shr_nat mrs e (n : nat) :
  shr mrs e (Z.of_nat n) = (Nat.iter n shr_1 mrs, (e + Z.of_nat n)%Z).
Proof.
  destruct n as [|n].
  - simpl. rewrite Z.add_0_r. reflexivity.
  - change (Z.of_nat (S n)) with (Z.pos (Pos.of_succ_nat n)).
    cbn [shr]. rewrite iter_pos_nat, SuccNat2Pos.id_succ. reflexivity.
Qed.

Lemma shr_1_shl (p : positive) (n : nat) :
  Nat.iter n shr_1 {| shr_m := Z.pos (shl p n); shr_r := false; shr_s := false |}
  = {| shr_m := Z.pos p; shr_r := false; shr_s := false |}.
Proof.
  induction n as [|n IH]; [reflexivity|].
  rewrite Nat.iter_succ_r. simpl. exact IH.
Qed.

Lemma digits_shl (p : positive) (n : nat) :
  Z.pos (digits2_pos (shl p n)) = (Z.pos (digits2_pos p) + Z.of_nat n)%Z.
Proof.
  induction n as [|n IH]; [simpl; lia|].
  unfold shl in *. simpl Nat.iter. simpl digits2_pos. lia.
Qed.

Lemma shl_add p n m : shl (shl p n) m = shl p (n + m).
Proof. unfold shl. rewrite Nat.add_comm, Nat.iter_add. reflexivity. Qed.

Lemma shl_value p n : Z.pos (shl p n) = (Z.pos p * 2 ^ Z.of_nat n)%Z.
Proof.
  induction n as [|n IH]; [simpl; lia|].
  rewrite Nat2Z.inj_succ, Z.pow_succ_r by lia.
  unfold shl in *. simpl Nat.iter. rewrite Pos2Z.inj_xO, IH. lia.
Qed.

Lemma round_exact s p n :
  (Z.pos (digits2_pos p) <= 53)%Z ->
  binary_round_aux prec emax s (Z.pos (shl p (room p + n)))
    (- Z.of_nat (room p + n)) loc_Exact = canon s p.
Proof.
  intros Hd. unfold binary_round_aux.
  assert (Hr : Z.of_nat (room p) = (53 - Z.pos (digits2_pos p))%Z)
    by (unfold room; lia).
  assert (H1 : shr_fexp prec emax (Z.pos (shl p (room p + n)))
                 (- Z.of_nat (room p + n)) loc_Exact
               = ({| shr_m := Z.pos (shl p (room p)); shr_r := false; shr_s := false |},
                  (- Z.of_nat (room p))%Z)).
  { unfold shr_fexp. simpl Zdigits2. rewrite digits_shl, fexp_binary64.
    replace (Z.max _ _ - _)%Z with (Z.of_nat n) by lia.
    simpl shr_record_of_loc. rewrite shr_nat.
    rewrite <- shl_add, shr_1_shl. f_equal. lia. }
  rewrite H1. simpl shr_m. simpl loc_of_shr_record. simpl round_nearest_even.
  rewrite shr_fexp_canonical.
  - simpl shr_m. unfold canon.
    destruct (Z.leb_spec (- Z.of_nat (room p)) (emax - prec)); [reflexivity|].
    unfold emax, prec in *. lia.
  - rewrite digits_shl, fexp_binary64. lia.
Qed.

Lemma binary_round_canon s p :
  (Z.pos (digits2_pos p) <= 53)%Z ->
  binary_round prec emax s p 0 = canon s p.
Proof.
  intros Hd. unfold binary_round, shl_align. rewrite fexp_binary64.
  assert (Hr : Z.of_nat (room p) = (53 - Z.pos (digits2_pos p))%Z)
    by (unfold room; lia).
  destruct (Z.max (Z.pos (digits2_pos p) + 0 - 53) (-1074) - 0)%Z as [|d|d] eqn:E.
  - assert (room p = 0)%nat by lia.
    pose proof (round_exact s p 0 Hd) as H0. rewrite Nat.add_0_r, H in H0.
    exact H0.
  - lia.
  - assert (Hroom : room p = Pos.to_nat d) by lia.
    pose proof (round_exact s p 0 Hd) as H0. rewrite Nat.add_0_r in H0.
    rewrite Pos2Nat.inj_iter. fold (shl p (Pos.to_nat d)). rewrite <- Hroom.
    replace (Z.max (Z.pos (digits2_pos p) + 0 - 53) (-1074)) with (- Z.of_nat (room p))%Z by lia.
    exact H0.
Qed.

Lemma digits_size p : digits2_pos p = Pos.size p.
Proof. induction p; simpl; congruence. Qed.

Lemma digits_bounds p :
  (2 ^ (Z.pos (digits2_pos p) - 1) <= Z.pos p < 2 ^ Z.pos (digits2_pos p))%Z.
Proof.
  rewrite digits_size. split.
  - pose proof (Pos.size_le p) as H.
    apply Pos2Z.pos_le_pos in H. rewrite Pos2Z.inj_pow in H.
    assert (E : (2 ^ Z.pos (Pos.size p) = 2 * 2 ^ (Z.pos (Pos.size p) - 1))%Z).
    { rewrite <- Z.pow_succ_r by lia. f_equal. lia. }
    rewrite E in H. lia.
  - pose proof (Pos.size_gt p) as H.
    apply Pos2Z.pos_lt_pos in H. rewrite Pos2Z.inj_pow in H. exact H.
Qed.

Lemma digits_above p k :
  (0 <= k)%Z -> (2 ^ k <= Z.pos p)%Z -> (k < Z.pos (digits2_pos p))%Z.
Proof.
  intros Hk H. pose proof (digits_bounds p) as [_ Hu].
  apply (Z.pow_lt_mono_r_iff 2); lia.
Qed.

Lemma digits_safe p :
  (Z.pos p < 2 ^ 53)%Z -> (Z.pos (digits2_pos p) <= 53)%Z.
Proof.
  intros H. pose proof (digits_bounds p) as [Hl _].
  assert (2 ^ (Z.pos (digits2_pos p) - 1) < 2 ^ 53)%Z by lia.
  apply Z.pow_lt_mono_r_iff in H0; lia.
Qed.

Lemma digits_mono p q :
  (p <= q)%positive -> (Z.pos (digits2_pos p) <= Z.pos (digits2_pos q))%Z.
Proof.
  intros H. pose proof (digits_bounds p) as [Hl _].
  assert (Hk : (Z.pos (digits2_pos p) - 1 < Z.pos (digits2_pos q))%Z).
  { apply digits_above; lia. }
  lia.
Qed.

Lemma digits_mul p q :
  (Z.pos (digits2_pos p) + Z.pos (digits2_pos q) - 1
   <= Z.pos (digits2_pos (p * q)))%Z.
Proof.
  pose proof (digits_bounds p) as [Hp _].
  pose proof (digits_bounds q) as [Hq _].
  assert (Hk : (Z.pos (digits2_pos p) - 1 + (Z.pos (digits2_pos q) - 1)
                < Z.pos (digits2_pos (p * q)))%Z).
  { apply digits_above; [lia|].
    rewrite Z.pow_add_r by lia. rewrite Pos2Z.inj_mul.
    apply Z.mul_le_mono_nonneg; lia. }
  lia.
Qed.

Lemma shl_mul p q n m : (shl p n * shl q m)%positive = shl (p * q) (n + m).
Proof.
  apply Pos2Z.inj. rewrite Pos2Z.inj_mul, !shl_value, Pos2Z.inj_mul.
  rewrite Nat2Z.inj_add, Z.pow_add_r by lia. ring.
Qed.

Lemma shl_plus p q n : (shl p n + shl q n)%positive = shl (p + q) n.
Proof.
  apply Pos2Z.inj. rewrite Pos2Z.inj_add, !shl_value, Pos2Z.inj_add. ring.
Qed.

Lemma room_spec p :
  (Z.pos (digits2_pos p) <= 53)%Z ->
  Z.of_nat (room p) = (53 - Z.pos (digits2_pos p))%Z.
Proof. unfold room. lia. Qed.

Lemma mul_canon sa sb a b :
  (Z.pos (a * b) < 2 ^ 53)%Z ->
  mul (canon sa a) (canon sb b) = canon (xorb sa sb) (a * b).
Proof.
  intros H.
  assert (Ha : (Z.pos a < 2 ^ 53)%Z) by nia.
  assert (Hb : (Z.pos b < 2 ^ 53)%Z) by nia.
  apply digits_safe in Ha, Hb. pose proof (digits_safe _ H) as Hab.
  pose proof (digits_mul a b) as Hm.
  pose proof (room_spec _ Ha). pose proof (room_spec _ Hb).
  pose proof (room_spec _ Hab).
  unfold mul, canon at 1 2. cbn [SFmul].
  rewrite shl_mul.
  replace (room a + room b)%nat
    with (room (a * b) + (room a + room b - room (a * b)))%nat by lia.
  replace (- Z.of_nat (room a) + - Z.of_nat (room b))%Z
    with (- Z.of_nat (room (a * b) + (room a + room b - room (a * b))))%Z by lia.
  apply round_exact, Hab.
Qed.

Lemma shl_align_nat m e (k : nat) :
  fst (shl_align m e (e - Z.of_nat k)) = shl m k.
Proof.
  unfold shl_align.
  replace (e - Z.of_nat k - e)%Z with (- Z.of_nat k)%Z by lia.
  destruct k as [|k]; [reflexivity|].
  change (- Z.of_nat (S k))%Z with (Z.neg (Pos.of_succ_nat k)).
  cbn [fst]. rewrite Pos2Nat.inj_iter, SuccNat2Pos.id_succ. reflexivity.
Qed.

Lemma add_canon a b :
  (Z.pos (a + b) < 2 ^ 53)%Z ->
  add (canon false a) (canon false b) = canon false (a + b).
Proof.
  intros H.
  assert (Ha : (Z.pos a < 2 ^ 53)%Z) by lia.
  assert (Hb : (Z.pos b < 2 ^ 53)%Z) by lia.
  apply digits_safe in Ha, Hb. pose proof (digits_safe _ H) as Hab.
  pose proof (digits_mono a (a + b) ltac:(lia)) as Hma.
  pose proof (digits_mono b (a + b) ltac:(lia)) as Hmb.
  pose proof (room_spec _ Ha) as Ra. pose proof (room_spec _ Hb) as Rb.
  pose proof (room_spec _ Hab) as Rab.
  set (M := Nat.max (room a) (room b)).
  unfold add, canon at 1 2. cbn [SFadd].
  replace (Z.min (- Z.of_nat (room a)) (- Z.of_nat (room b)))
    with (- Z.of_nat M)%Z by lia.
  replace (- Z.of_nat M)%Z with (- Z.of_nat (room a) - Z.of_nat (M - room a))%Z at 1 by lia.
  rewrite shl_align_nat, shl_add.
  replace (- Z.of_nat M)%Z with (- Z.of_nat (room b) - Z.of_nat (M - room b))%Z at 1 by lia.
  rewrite shl_align_nat, shl_add.
  replace (room a + (M - room a))%nat with M by lia.
  replace (room b + (M - room b))%nat with M by lia.
  cbn [cond_Zopp]. rewrite <- Pos2Z.inj_add, shl_plus.
  cbn [binary_normalize]. unfold binary_round, shl_align.
  rewrite digits_shl, fexp_binary64.
  destruct (Z.max (Z.pos (digits2_pos (a + b)) + Z.of_nat M + - Z.of_nat M - 53) (-1074)
            - - Z.of_nat M)%Z eqn:E; try lia;
    replace M with (room (a + b) + (M - room (a + b)))%nat by lia;
    apply round_exact, Hab.
Qed.

Lemma num_pos p : (N.pos p < safe_bound)%N -> num (N.pos p) = canon false p.
Proof.
  intros H. unfold num, of_Z. cbn [Z.of_N binary_normalize].
  apply binary_round_canon, digits_safe.
  unfold safe_bound in H. lia.
Qed.

Lemma mul_num n m :
  (n < safe_bound)%N -> (m < safe_bound)%N -> (n * m < safe_bound)%N ->
  mul (num n) (num m) = num (n * m).
Proof.
  intros Hn Hm H. destruct n as [|a], m as [|b].
  - reflexivity.
  - rewrite (num_pos b Hm). reflexivity.
  - rewrite (num_pos a Hn). reflexivity.
  - rewrite (num_pos a Hn), (num_pos b Hm).
    change (N.pos a * N.pos b)%N with (N.pos (a * b)) in *.
    rewrite (num_pos _ H). apply mul_canon. unfold safe_bound in H. lia.
Qed.

Lemma add_num n m :
  (n + m < safe_bound)%N -> add (num n) (num m) = num (n + m).
Proof.
  intros H. destruct n as [|a], m as [|b]; rewrite ?N.add_0_l, ?N.add_0_r in *.
  - reflexivity.
  - rewrite (num_pos b) by lia. reflexivity.
  - rewrite (num_pos a) by lia. reflexivity.
  - rewrite (num_pos a), (num_pos b) by lia.
    change (N.pos a + N.pos b)%N with (N.pos (a + b)) in *.
    rewrite (num_pos _ H). apply add_canon. unfold safe_bound in H. lia.
Qed.

(** ** Numerals *)

(** A decimal digit is no white space and no sign. *)
Lemma digit_char (d : N) :
  (d < 10)%N ->
  digit_value 10 (48 + d)%N = Some d
  /\ isWhiteSpace (48 + d)%N = false
  /\ read_sign ((48 + d)%N :: nil) = (false, (48 + d)%N :: nil).
Proof.
  intros H.
  assert (E : forall k, (k < 48 \/ 57 < k)%N -> ((48 + d =? k) = false)%N)
    by (intros k Hk; apply N.eqb_neq; lia).
  split; [|split].
  - unfold digit_value.
    destruct (N.leb_spec 48 (48 + d)); [|lia].
    destruct (N.leb_spec (48 + d) 57); [|lia]. simpl.
    replace (48 + d - 48)%N with d by lia.
    destruct (N.ltb_spec d 10); [reflexivity | lia].
  - unfold isWhiteSpace. cbn [existsb].
    rewrite !E by lia. simpl.
    destruct (N.leb_spec 8192 (48 + d)); [lia | reflexivity].
  - unfold read_sign, minus_sign, plus_sign. rewrite !E by lia. reflexivity.
Qed.

Lemma digits_prefix_numeral (ds : list N) (rest : jsstring) :
  Forall (fun d => d < 10)%N ds -> no_digit_ahead rest ->
  digits_prefix 10 (numeral ds ++ rest) = (ds, rest).
Proof.
  intros Hds Hrest. induction Hds as [|d ds Hd _ IH]; simpl.
  - destruct rest as [|c r]; [reflexivity|].
    simpl in Hrest. simpl. rewrite Hrest. reflexivity.
  - destruct (digit_char d Hd) as (Hv & _ & _).
    rewrite Hv, IH. reflexivity.
Qed.

Lemma trimStart_numeral (ds : list N) (rest : jsstring) :
  decimal_digits ds ->
  trimStart (numeral ds ++ rest) = numeral ds ++ rest.
Proof.
  intros [Hne Hds]. destruct Hds as [|d ds Hd _]; [contradiction|].
  simpl. destruct (digit_char d Hd) as (_ & Hw & _). rewrite Hw. reflexivity.
Qed.

Lemma read_sign_numeral (ds : list N) (rest : jsstring) :
  decimal_digits ds ->
  read_sign (numeral ds ++ rest) = (false, numeral ds ++ rest).
Proof.
  intros [Hne Hds]. destruct Hds as [|d ds Hd _]; [contradiction|].
  destruct (digit_char d Hd) as (_ & _ & Hs).
  simpl in *. unfold read_sign in *.
  destruct (48 + d =? minus_sign)%N; [discriminate|].
  destruct (48 + d =? plus_sign)%N; [discriminate|]. reflexivity.
Qed.

Lemma digits_value_zero_head (d : N) (ds : list N) :
  digits_value 10 (d :: ds) <> 0%N -> d = 0%N -> ds <> [].
Proof.
  intros Hv Hd Hds. subst. apply Hv. reflexivity.
Qed.

(** [parseInt] reads the leading numeral and stops at what is no
    digit; [parseFloat] of a bare numeral is the same number. *)
Lemma parseInt_numeral (ds : list N) (rest : jsstring) :
  decimal_digits ds -> no_digit_ahead rest ->
  digits_value 10 ds <> 0%N \/ rest = [] ->
  parseInt (numeral ds ++ rest) = num (digits_value 10 ds).
Proof.
  intros Hd Hrest Hv. unfold parseInt.
  rewrite (trimStart_numeral ds rest Hd), (read_sign_numeral ds rest Hd).
  match goal with
  | |- (let (radix, s2) := ?M in _) = _ =>
      assert (Hradix : M = (10%N, numeral ds ++ rest))
  end.
  { destruct Hd as [Hne Hds].
    destruct Hds as [|d0 ds Hd0 Hds]; [contradiction|]. simpl.
    destruct (numeral ds ++ rest) as [|c1 r] eqn:E; [reflexivity|].
    destruct (48 + d0 =? 48)%N eqn:E0; [|reflexivity].
    apply N.eqb_eq in E0. assert (d0 = 0%N) by lia. subst d0.
    destruct Hds as [|d1 ds Hd1 Hds].
    - destruct Hv as [Hv|Hv]; [exfalso; apply Hv; reflexivity|].
      subst. discriminate.
    - simpl in E. inversion E; subst.
      assert (H120 : (48 + d1 =? 120)%N = false) by (apply N.eqb_neq; lia).
      assert (H88 : (48 + d1 =? 88)%N = false) by (apply N.eqb_neq; lia).
      rewrite H120, H88. reflexivity. }
  rewrite Hradix.
  destruct Hd as [Hne Hds].
  rewrite (digits_prefix_numeral ds rest Hds Hrest).
  destruct ds as [|d ds]; [contradiction|].
  unfold num. destruct (digits_value 10 (d :: ds)) as [|p]; reflexivity.
Qed.

Lemma parseFloat_numeral (ds : list N) :
  decimal_digits ds ->
  parseFloat (numeral ds) = num (digits_value 10 ds).
Proof.
  intros Hd. unfold parseFloat.
  pose proof (trimStart_numeral ds [] Hd) as Ht.
  pose proof (read_sign_numeral ds [] Hd) as Hs.
  pose proof (digits_prefix_numeral ds [] (proj2 Hd) I) as Hp.
  rewrite app_nil_r in Ht, Hs, Hp. rewrite Ht, Hs, Hp.
  destruct Hd as [Hne Hds].
  destruct Hds as [|d ds Hd0 Hds]; [contradiction|].
  assert (Hinf : starts_with (str "Infinity") (numeral (d :: ds)) = false).
  { unfold numeral. cbn [map].
    change (str "Infinity") with (73%N :: str "nfinity").
    cbn [starts_with].
    rewrite (proj2 (N.eqb_neq 73 (48 + d))) by lia. reflexivity. }
  rewrite Hinf. rewrite app_nil_r.
  cbn [exponent_part List.length Z.of_nat Z.sub Z.opp Z.add].
  unfold num, decimal_to_number.
  destruct (digits_value 10 (d :: ds)) as [|p]; [reflexivity|].
  cbn. rewrite Pos.mul_1_r. reflexivity.
Qed.

(** ** More on trimming and splitting *)

Lemma trimStart_app_blank (l s : jsstring) :
  forallb isWhiteSpace l = true -> trimStart (l ++ s) = trimStart s.
Proof.
  induction l as [|c l IH]; simpl; [reflexivity|].
  intros H. apply andb_true_iff in H. destruct H as [Hc Hl].
  rewrite Hc. apply IH, Hl.
Qed.

Lemma trimStart_app_keep (s r : jsstring) :
  trimStart s <> [] -> trimStart (s ++ r) = trimStart s ++ r.
Proof.
  induction s as [|c s IH]; simpl; [contradiction|].
  destruct (isWhiteSpace c); [exact IH | reflexivity].
Qed.

Lemma trimStart_head (s : jsstring) (c : code_unit) (t : jsstring) :
  trimStart s = c :: t -> isWhiteSpace c = false.
Proof.
  induction s as [|x s IH]; simpl; [discriminate|].
  destruct (isWhiteSpace x) eqn:E; [exact IH|].
  intros H; inversion H; subst. exact E.
Qed.

Lemma trimStart_idem (s : jsstring) : trimStart (trimStart s) = trimStart s.
Proof.
  destruct (trimStart s) as [|c t] eqn:E; [reflexivity|].
  simpl. rewrite (trimStart_head s c t E). reflexivity.
Qed.

Lemma trimStart_sublist (f : code_unit -> bool) (s : jsstring) :
  forallb f s = true -> forallb f (trimStart s) = true.
Proof.
  induction s as [|c s IH]; simpl; [reflexivity|].
  intros H. destruct (isWhiteSpace c); [|exact H].
  apply andb_true_iff in H. apply IH, H.
Qed.

Lemma trim_sublist (f : code_unit -> bool) (s : jsstring) :
  forallb f s = true -> forallb f (trim s) = true.
Proof.
  intros H. unfold trim, trimEnd.
  rewrite forallb_rev. apply trimStart_sublist.
  rewrite forallb_rev. apply trimStart_sublist, H.
Qed.

(** White space around a text does not survive [trim]. *)
Lemma trim_padded (l s r : jsstring) :
  forallb isWhiteSpace l = true -> forallb isWhiteSpace r = true ->
  trim (l ++ s ++ r) = trim s.
Proof.
  intros Hl Hr. unfold trim, trimEnd.
  rewrite (trimStart_app_blank l _ Hl).
  destruct (trimStart s) as [|c t] eqn:E.
  - apply trimStart_nil in E.
    assert (H : trimStart (s ++ r) = []).
    { apply trimStart_nil. rewrite forallb_app, E, Hr. reflexivity. }
    rewrite H. reflexivity.
  - rewrite trimStart_app_keep by (rewrite E; discriminate).
    rewrite E, rev_app_distr.
    rewrite trimStart_app_blank by (rewrite forallb_rev; exact Hr).
    reflexivity.
Qed.

Lemma trimStart_snoc (a : jsstring) (c : code_unit) :
  isWhiteSpace c = false -> trimStart (a ++ [c]) = trimStart a ++ [c].
Proof.
  intros Hc. induction a as [|x a IH]; simpl.
  - rewrite Hc. reflexivity.
  - destruct (isWhiteSpace x); [exact IH | reflexivity].
Qed.

(** What [trim] returns has no white space at either end. *)
Lemma trim_idem (s : jsstring) : trim (trim s) = trim s.
Proof.
  assert (Hs : trimStart (trim s) = trim s).
  { unfold trim, trimEnd.
    destruct (trimStart s) as [|c t] eqn:E; [reflexivity|].
    pose proof (trimStart_head s c t E) as Hc.
    simpl rev. rewrite (trimStart_snoc _ c Hc), rev_app_distr. simpl.
    rewrite Hc. reflexivity. }
  unfold trim at 1. rewrite Hs. unfold trim, trimEnd.
  rewrite rev_involutive, trimStart_idem. reflexivity.
Qed.

Lemma white_not_comma (s : jsstring) :
  forallb isWhiteSpace s = true -> comma_free s = true.
Proof.
  unfold comma_free. induction s as [|c s IH]; simpl; [reflexivity|].
  intros H. apply andb_true_iff in H. destruct H as [Hc Hs].
  rewrite (IH Hs), andb_true_r.
  destruct (N.eqb_spec c comma); [subst; discriminate | reflexivity].
Qed.

Lemma comma_free_app (a b : jsstring) :
  comma_free (a ++ b) = comma_free a && comma_free b.
Proof. apply forallb_app. Qed.

Lemma split_comma_free (p : jsstring) :
  comma_free p = true -> split_comma p = [p].
Proof.
  induction p as [|c p IH]; simpl; [reflexivity|].
  intros H. apply andb_true_iff in H. destruct H as [Hc Hp].
  apply negb_true_iff in Hc. rewrite Hc, (IH Hp). reflexivity.
Qed.

Lemma split_comma_app (p rest : jsstring) :
  comma_free p = true ->
  split_comma (p ++ comma :: rest) = p :: split_comma rest.
Proof.
  induction p as [|c p IH]; simpl.
  - intros _. reflexivity.
  - intros H. apply andb_true_iff in H. destruct H as [Hc Hp].
    apply negb_true_iff in Hc. rewrite Hc, (IH Hp). reflexivity.
Qed.

Lemma split_comma_pieces (s : jsstring) :
  Forall (fun p => comma_free p = true) (split_comma s).
Proof.
  induction s as [|c s IH]; simpl.
  - constructor; [reflexivity | constructor].
  - destruct (N.eqb_spec c comma) as [E|E].
    + constructor; [reflexivity | exact IH].
    + pose proof (split_comma_not_nil s).
      destruct (split_comma s) as [|p ps]; [contradiction|].
      inversion IH; subst. constructor; [|assumption].
      simpl. apply N.eqb_neq in E. rewrite E. simpl. assumption.
Qed.

Lemma split_comma_length (s : jsstring) :
  List.length (split_comma s) = S (count_commas s).
Proof.
  induction s as [|c s IH]; simpl; [reflexivity|].
  destruct (c =? comma)%N; simpl; [congruence|].
  pose proof (split_comma_not_nil s).
  destruct (split_comma s) as [|p ps]; [contradiction|exact IH].
Qed.

Lemma split_comma_join (pieces : list jsstring) :
  pieces <> [] -> Forall (fun p => comma_free p = true) pieces ->
  split_comma (join [comma] pieces) = pieces.
Proof.
  intros Hne H. induction H as [|p ps Hp Hps IH]; [contradiction|].
  destruct ps as [|q qs].
  - simpl. apply split_comma_free, Hp.
  - change (join [comma] (p :: q :: qs))
      with (p ++ comma :: join [comma] (q :: qs)).
    rewrite split_comma_app by exact Hp. f_equal. apply IH. discriminate.
Qed.

(** ** Comparing strings *)

Lemma string_eqb_eq (a b : jsstring) : string_eqb a b = true <-> a = b.
Proof.
  revert b. induction a as [|x a IH]; intros [|y b]; simpl;
    try (split; [discriminate | discriminate]); [tauto|].
  rewrite andb_true_iff, N.eqb_eq, IH. split.
  - intros [-> ->]. reflexivity.
  - intros H; inversion H; auto.
Qed.

End JSFacts.

(* ================================================================== *)
(** * Facts about the claim form *)
(* ================================================================== *)

Module ClaimInputFacts.

Import JS JSFacts ClaimInput.

(** ** The total charge *)

Lemma firstn_succ {A} (l : list A) (k : nat) (x : A) :
  nth_error l k = Some x -> firstn (S k) l = firstn k l ++ [x].
Proof.
  revert k. induction l as [|a l IH]; intros [|k] H; simpl in *;
    try discriminate.
  - inversion H; reflexivity.
  - f_equal. apply IH, H.
Qed.

Lemma partial_sum_firstn (ps : list Types.ProcedureCode) (k : nat) :
  k <= List.length ps -> partial_sum ps k = totalCharge (firstn k ps).
Proof.
  induction k as [|k IH]; intros Hk.
  - reflexivity.
  - simpl partial_sum.
    destruct (nth_error ps k) as [p|] eqn:Hp.
    + rewrite (firstn_succ _ _ _ Hp). unfold totalCharge.
      rewrite fold_left_app. simpl. f_equal.
      apply IH. lia.
    + apply nth_error_None in Hp. lia.
Qed.

Lemma totalCharge_sum (ps : list Types.ProcedureCode) :
  totalCharge ps = sum_charge_units ps.
Proof.
  unfold sum_charge_units.
  rewrite partial_sum_firstn by lia.
  rewrite firstn_all. reflexivity.
Qed.

(** C1. Every claim that [handleSubmit] builds carries, as its total
    charge, the sum over its own procedure entries of charge times
    units, taken in entry order from zero in the arithmetic of
    JavaScript numbers. *)
Theorem handleSubmit_total_charge
    (formData : FormData) (procedures : list ProcedureRow) :
  Types.total_charge (handleSubmit formData procedures)
  = sum_charge_units (Types.procedure_codes (handleSubmit formData procedures)).
Proof.
  simpl. apply totalCharge_sum.
Qed.

(** The two sample claims of the form: 135, and 500 + 135. *)
Example sample_total :
  Types.total_charge (handleSubmit sampleForm sampleProcedures) = of_Z 135
  /\ Types.total_charge (handleSubmit invalidForm invalidProcedures) = of_Z 635.
Proof. split; vm_compute; reflexivity. Qed.

(** The sum is the engine's: three units at 0.1 come to
    0.30000000000000004, not to the double nearest 0.3. *)
Example tenths_total :
  Types.total_charge (handleSubmit sampleForm [tenthsRow])
  = parseFloat (str "0.30000000000000004")
  /\ Types.total_charge (handleSubmit sampleForm [tenthsRow])
     <> parseFloat (str "0.3").
Proof. split; vm_compute; [reflexivity | discriminate]. Qed.

(** ** Units and charge of an entry *)

Lemma read_sign_leading_minus (text : jsstring) :
  fst (read_sign (trimStart text)) = leading_minus text.
Proof.
  unfold leading_minus, read_sign.
  destruct (trimStart text) as [|c r]; [reflexivity|].
  destruct (c =? minus_sign)%N; [reflexivity|].
  destruct (c =? plus_sign)%N; reflexivity.
Qed.

Lemma or_else_one_truthy (x : number) : truthy (or_else x one) = true.
Proof.
  unfold or_else. destruct (truthy x) eqn:H; [exact H | reflexivity].
Qed.

Lemma or_else_zero_not_nan (x : number) : or_else x zero <> NaN.
Proof.
  unfold or_else. destruct x; simpl; discriminate.
Qed.

Lemma or_else_one_positive (x : number) :
  has_sign false x -> is_positive (or_else x one) = true.
Proof.
  destruct x as [s|s| |s m e]; simpl; intros H; subst; reflexivity.
Qed.

Lemma or_else_zero_nonnegative (x : number) :
  has_sign false x -> is_nonnegative (or_else x zero) = true.
Proof.
  destruct x as [s|s| |s m e]; simpl; intros H; subst; reflexivity.
Qed.

Lemma or_else_one_integer (neg : bool) (x : number) :
  parsed_integer neg x ->
  isInteger (or_else x one) = true \/ or_else x one = S754_infinity neg.
Proof.
  intros [| |p].
  - left; reflexivity.
  - left; reflexivity.
  - pose proof (binary_round_sign neg p 0) as Hs.
    destruct (binary_round prec emax neg p 0) as [s|s| |s m e] eqn:Hr.
    + left; reflexivity.
    + right. simpl in Hs. subst. reflexivity.
    + left; reflexivity.
    + left. unfold or_else. simpl truthy.
      apply (binary_round_integer neg p), Hr.
Qed.

Lemma or_else_one_sign (x : number) :
  is_positive (or_else x one) = negb (SFltb x zero).
Proof. destruct x as [s|s| |s m e]; try destruct s; reflexivity. Qed.

Lemma or_else_zero_sign (x : number) :
  is_nonnegative (or_else x zero) = negb (SFltb x zero).
Proof. destruct x as [s|s| |s m e]; try destruct s; reflexivity. Qed.

(** Whatever the texts, accepted by the inputs or not: for every row
    of the form, the entry that [handleSubmit] builds has a unit count that is never NaN and never
    zero, and is an integer or, for a numeral beyond the range of a
    double, an infinity; its charge is never NaN.  The unit count is
    positive exactly when [parseInt] of the units text is not negative,
    the charge is non-negative exactly when [parseFloat] of the charge
    text is not negative; both hold whenever the text does not begin,
    after white space, with a minus sign. *)
Theorem handleSubmit_entry
    (formData : FormData) (procedures : list ProcedureRow)
    (i : nat) (row : ProcedureRow) :
  nth_error procedures i = Some row ->
  exists entry,
    nth_error (Types.procedure_codes (handleSubmit formData procedures)) i
      = Some entry
    /\ truthy (Types.units entry) = true
    /\ (isInteger (Types.units entry) = true
        \/ exists s, Types.units entry = S754_infinity s)
    /\ Types.charge entry <> NaN
    /\ is_positive (Types.units entry)
       = negb (SFltb (parseInt (units row)) zero)
    /\ is_nonnegative (Types.charge entry)
       = negb (SFltb (parseFloat (charge row)) zero)
    /\ (leading_minus (units row) = false ->
        is_positive (Types.units entry) = true)
    /\ (leading_minus (charge row) = false ->
        is_nonnegative (Types.charge entry) = true).
Proof.
  intros Hrow. exists (procedureCode row). simpl.
  split; [apply map_nth_error, Hrow|].
  split; [apply or_else_one_truthy|].
  split.
  { destruct (or_else_one_integer _ _ (parseInt_shape (units row)))
      as [H|H]; [left; exact H | right; eexists; exact H]. }
  split; [apply or_else_zero_not_nan|].
  split; [apply or_else_one_sign|].
  split; [apply or_else_zero_sign|].
  split.
  - intros Hm. apply or_else_one_positive.
    rewrite <- Hm, <- read_sign_leading_minus. apply parseInt_sign.
  - intros Hm. apply or_else_zero_nonnegative.
    rewrite <- Hm, <- read_sign_leading_minus. apply parseFloat_sign.
Qed.

(** The rule at work on the valid sample of the form. *)
Lemma handleSubmit_entry_sample :
  exists entry,
    nth_error (Types.procedure_codes (handleSubmit sampleForm sampleProcedures)) 0
      = Some entry
    /\ is_positive (Types.units entry) = true
    /\ is_nonnegative (Types.charge entry) = true.
Proof.
  destruct (handleSubmit_entry sampleForm sampleProcedures 0
              {| cpt := str "99213"; modifiers := []; units := str "1";
                 charge := str "135" |} eq_refl)
    as (entry & Hn & _ & _ & _ & _ & _ & Hu & Hc).
  exists entry. split; [exact Hn|]. split.
  - apply Hu. reflexivity.
  - apply Hc. reflexivity.
Defined.

(** Texts that the inputs reject, were they to reach [handleSubmit]:
    "-5" and "-3" give an entry with -5 units and a charge of -3. *)
Lemma negative_row_not_well_formed :
  exists entry,
    nth_error
      (Types.procedure_codes (handleSubmit sampleForm [negativeRow])) 0
      = Some entry
    /\ ~ well_formed_entry entry.
Proof.
  eexists. split; [reflexivity|].
  intros [Hpos _]. vm_compute in Hpos. discriminate.
Qed.

Example negative_row_entry :
  Types.units (procedureCode negativeRow) = of_Z (-5)
  /\ Types.charge (procedureCode negativeRow) = of_Z (-3).
Proof. split; vm_compute; reflexivity. Qed.






(** What the units input accepts and what it rejects. *)
Example unitsAccepted_examples :
  unitsAccepted (str "1") = true
  /\ unitsAccepted (str "1e2") = true
  /\ unitsAccepted (str "2.5") = true
  /\ unitsAccepted (str "0") = false
  /\ unitsAccepted (str "-5") = false
  /\ unitsAccepted (str "-1e400") = false
  /\ unitsAccepted (str "1e400") = false
  /\ unitsAccepted (str "+5") = false
  /\ unitsAccepted (str " 5") = false
  /\ unitsAccepted (str "5.") = false
  /\ unitsAccepted (str "abc") = false
  /\ unitsAccepted [] = false
  /\ chargeAccepted (str "0") = true
  /\ chargeAccepted (str "-0") = true
  /\ chargeAccepted (str ".5") = true
  /\ chargeAccepted (str "135.50") = true
  /\ chargeAccepted (str "-3") = false
  /\ chargeAccepted [] = false.
Proof. repeat split; vm_compute; reflexivity. Qed.

(** A units numeral of 310 digits rounds to +Infinity: positive, but no
    integer. *)
Example huge_units_entry :
  Types.units (procedureCode hugeUnitsRow) = Infinity
  /\ isInteger (Types.units (procedureCode hugeUnitsRow)) = false.
Proof. split; vm_compute; reflexivity. Qed.

(** ** The diagnosis codes *)

Lemma filter_nil {A} (f : A -> bool) (l : list A) :
  List.filter f l = [] <-> existsb f l = false.
Proof.
  induction l as [|a l IH]; simpl; [tauto|].
  destruct (f a); simpl; [split; discriminate | exact IH].
Qed.

Lemma existsb_map {A B} (f : B -> bool) (g : A -> B) (l : list A) :
  existsb f (map g l) = existsb (fun a => f (g a)) l.
Proof. induction l as [|a l IH]; simpl; congruence. Qed.

Lemma existsb_ext {A} (f g : A -> bool) (l : list A) :
  (forall a, f a = g a) -> existsb f l = existsb g l.
Proof. intros H. induction l as [|a l IH]; simpl; congruence. Qed.

Lemma diagnosisCodes_nil (s : jsstring) :
  diagnosisCodes s = [] <-> existsb code_char s = false.
Proof.
  unfold diagnosisCodes. rewrite filter_nil, existsb_map.
  rewrite (existsb_ext _ (fun piece => negb (forallb isWhiteSpace piece)))
    by apply truthy_trim.
  rewrite split_comma_blank. reflexivity.
Qed.

(** X11. The diagnosis list of a submitted claim is non-empty exactly
    when the text of the field holds a code unit that is neither a comma
    nor white space. *)
Theorem handleSubmit_diagnosis_codes
    (formData : FormData) (procedures : list ProcedureRow) :
  Types.diagnosis_codes (handleSubmit formData procedures) <> []
  <-> exists c, In c (diagnosis_codes formData)
                /\ c <> comma /\ isWhiteSpace c = false.
Proof.
  simpl. rewrite diagnosisCodes_nil, not_false_iff_true, existsb_exists.
  unfold code_char.
  split; intros [c [Hin H]]; exists c.
  - apply andb_true_iff in H. destruct H as [H1 H2].
    apply negb_true_iff in H1, H2. apply N.eqb_neq in H1. auto.
  - destruct H as [H1 H2]. split; [exact Hin|].
    apply N.eqb_neq in H1. rewrite H1, H2. reflexivity.
Qed.

(** C3, at the failing input. A diagnosis field holding a single comma
    passes the [required] gate, and the claim submitted from it has no
    diagnosis code. *)
Theorem handleSubmit_lone_comma
    (formData : FormData) (procedures : list ProcedureRow) :
  required (str ",") = true
  /\ Types.diagnosis_codes
       (handleSubmit (setDiagnosisCodes formData (str ",")) procedures) = [].
Proof. split; reflexivity. Qed.

Example diagnosis_examples :
  diagnosisCodes (str "E11.9, I10") = [str "E11.9"; str "I10"]
  /\ diagnosisCodes (str "E11.9,") = [str "E11.9"]
  /\ diagnosisCodes (str "  ") = []
  /\ diagnosisCodes (str " , ,") = [].
Proof. repeat split; reflexivity. Qed.

(** ** Whole numbers in the units and charge fields *)

Lemma num_truthy (v : N) :
  (0 < v < safe_bound)%N -> truthy (num v) = true.
Proof.
  intros [H0 H1]. destruct v as [|p]; [lia|].
  rewrite (num_pos p H1). reflexivity.
Qed.

Lemma or_else_num_one (v : N) :
  (0 < v < safe_bound)%N -> or_else (num v) one = num v.
Proof. intros H. unfold or_else. rewrite (num_truthy v H). reflexivity. Qed.

Lemma or_else_num_zero (v : N) :
  (v < safe_bound)%N -> or_else (num v) zero = num v.
Proof.
  intros H. destruct v as [|p]; [reflexivity|].
  unfold or_else. rewrite num_truthy by lia. reflexivity.
Qed.

(** X1. The unit count is the integer numeral the units text starts
    with, when that is positive and below 2^53; a fraction or an
    exponent after it is ignored. *)
Theorem units_leading_numeral (row : ProcedureRow) (ds : list N) (rest : jsstring) :
  units row = numeral ds ++ rest ->
  decimal_digits ds -> no_digit_ahead rest ->
  (0 < digits_value 10 ds < safe_bound)%N ->
  Types.units (procedureCode row) = num (digits_value 10 ds).
Proof.
  intros Ht Hd Hr Hv. simpl. rewrite Ht.
  rewrite parseInt_numeral by (auto; left; lia).
  apply or_else_num_one, Hv.
Qed.

Lemma units_leading_numeral_exponent :
  Types.units
    (procedureCode {| cpt := str "99213"; modifiers := []; units := str "1e2";
                      charge := str "135" |})
  = num 1.
Proof.
  apply (units_leading_numeral _ [1%N] (str "e2")).
  - reflexivity.
  - split; [discriminate | repeat constructor].
  - reflexivity.
  - vm_compute. split; reflexivity.
Defined.

(** X2. A units text that is blank, or a numeral of value zero, is
    billed as one unit. *)
Theorem units_default (row : ProcedureRow) :
  forallb isWhiteSpace (units row) = true \/ whole_number (units row) 0 ->
  Types.units (procedureCode row) = one.
Proof.
  intros [H|(ds & Hd & Ht & Hv)]; simpl.
  - unfold parseInt. rewrite (proj2 (trimStart_nil _) H). reflexivity.
  - rewrite Ht. rewrite <- (app_nil_r (numeral ds)).
    rewrite parseInt_numeral by (auto; exact I).
    rewrite Hv. reflexivity.
Qed.

Lemma units_default_zero :
  Types.units
    (procedureCode {| cpt := str "99213"; modifiers := []; units := str "00";
                      charge := str "135" |})
  = one.
Proof.
  apply units_default. right. exists [0%N; 0%N].
  split; [split; [discriminate | repeat constructor] |].
  split; reflexivity.
Defined.

Lemma procedureCode_bills (row : ProcedureRow) (c u : N) :
  bills row (c, u) -> (c * u < safe_bound)%N ->
  mul (Types.charge (procedureCode row)) (Types.units (procedureCode row))
  = num (c * u).
Proof.
  intros ((cds & Hcd & Hct & Hcv) & (uds & Hud & Hut & Huv) & Hu) Hcu.
  simpl in *.
  assert (Hc : (c < safe_bound)%N) by nia.
  rewrite Hct, Hut, parseFloat_numeral by exact Hcd.
  rewrite <- (app_nil_r (numeral uds)).
  rewrite parseInt_numeral by (auto; exact I).
  rewrite Hcv, Huv.
  rewrite or_else_num_one by exact Hu.
  rewrite or_else_num_zero by exact Hc.
  apply mul_num; lia.
Qed.

Lemma totalCharge_bills (rows : list ProcedureRow) (amounts : list (N * N)) :
  Forall2 bills rows amounts ->
  forall acc,
    (acc + amount_due amounts < safe_bound)%N ->
    fold_left
      (fun sum p => add sum (mul (Types.charge p) (Types.units p)))
      (map procedureCode rows) (num acc)
    = num (acc + amount_due amounts).
Proof.
  induction 1 as [|row [c u] rows amounts Hrow _ IH]; intros acc Hacc.
  - simpl. rewrite N.add_0_r. reflexivity.
  - cbn [map fold_left].
    unfold amount_due in *. cbn [fold_right fst snd] in *.
    rewrite (procedureCode_bills row c u Hrow) by lia.
    rewrite add_num by lia.
    rewrite IH by lia. f_equal. lia.
Qed.

(** X3. When every row holds whole numbers, a charge and a positive
    unit count below 2^53, and the amount due, the sum of charge times
    units, is below 2^53, the total charge of the submitted claim is
    exactly that amount: no rounding occurs. *)
Theorem whole_number_total (formData : FormData)
    (rows : list ProcedureRow) (amounts : list (N * N)) :
  Forall2 bills rows amounts ->
  (amount_due amounts < safe_bound)%N ->
  Types.total_charge (handleSubmit formData rows) = num (amount_due amounts).
Proof.
  intros H Hb. simpl. unfold totalCharge.
  apply (totalCharge_bills rows amounts H 0%N). exact Hb.
Qed.

Lemma whole_number_total_invalid_sample :
  Types.total_charge (handleSubmit invalidForm invalidProcedures) = num 635.
Proof.
  apply (whole_number_total invalidForm invalidProcedures
           [(500%N, 1%N); (135%N, 1%N)]).
  - repeat constructor.
    + exists [5%N; 0%N; 0%N]. repeat split; try discriminate; repeat constructor.
    + exists [1%N]. repeat split; try discriminate; repeat constructor.
    + exists [1%N; 3%N; 5%N]. repeat split; try discriminate; repeat constructor.
    + exists [1%N]. repeat split; try discriminate; repeat constructor.
  - reflexivity.
Defined.

(** X4. The modifiers of an entry: none for an empty text; otherwise
    one for each piece between commas, blank pieces included, each
    without a comma and without white space at either end. *)
Theorem procedureCode_modifiers (row : ProcedureRow) :
  let ms := Types.modifiers (procedureCode row) in
  (modifiers row = [] -> ms = [])
  /\ (modifiers row <> [] ->
      List.length ms = S (count_commas (modifiers row)))
  /\ Forall (fun m => comma_free m = true /\ trim m = m) ms.
Proof.
  simpl. destruct (modifiers row) as [|c r] eqn:E.
  - simpl. repeat split; [congruence | constructor].
  - cbn [truthy_string]. split; [discriminate|]. split.
    + intros _. rewrite length_map. apply split_comma_length.
    + apply Forall_map.
      eapply Forall_impl; [|apply split_comma_pieces].
      intros p Hp. split; [apply trim_sublist, Hp | apply trim_idem].
Qed.

Lemma procedureCode_modifiers_sample :
  List.length (Types.modifiers (procedureCode tenthsRow)) = 2.
Proof.
  apply (proj1 (proj2 (procedureCode_modifiers tenthsRow))). discriminate.
Defined.

(** X5. Every diagnosis code of a submitted claim is non-empty, holds
    no comma and has no white space at either end. *)
Theorem handleSubmit_clean_codes
    (formData : FormData) (procedures : list ProcedureRow) :
  Forall clean_code (Types.diagnosis_codes (handleSubmit formData procedures)).
Proof.
  simpl. unfold diagnosisCodes.
  apply Forall_forall. intros c Hc.
  apply filter_In in Hc. destruct Hc as [Hin Ht].
  apply in_map_iff in Hin. destruct Hin as (p & <- & Hp).
  pose proof (split_comma_pieces (diagnosis_codes formData)) as Hall.
  rewrite Forall_forall in Hall.
  split; [|split].
  - destruct (trim p); [discriminate | discriminate].
  - apply trim_sublist, Hall, Hp.
  - apply trim_idem.
Qed.

Lemma padded_comma_free (code piece : jsstring) :
  padded code piece -> comma_free code = true -> comma_free piece = true.
Proof.
  intros (l & r & Hl & Hr & ->) Hc.
  rewrite !comma_free_app, Hc, (white_not_comma l Hl), (white_not_comma r Hr).
  reflexivity.
Qed.

Lemma padded_trim (code piece : jsstring) :
  padded code piece -> trim piece = trim code.
Proof. intros (l & r & Hl & Hr & ->). apply trim_padded; assumption. Qed.

(** X6. Codes written one after the other with commas between them,
    and any white space around each, come out as exactly those codes,
    in order. *)
Theorem diagnosis_codes_round_trip
    (formData : FormData) (procedures : list ProcedureRow)
    (codes pieces : list jsstring) :
  Forall clean_code codes ->
  Forall2 padded codes pieces ->
  diagnosis_codes formData = join [comma] pieces ->
  Types.diagnosis_codes (handleSubmit formData procedures) = codes.
Proof.
  intros Hclean Hpad Htext. simpl. rewrite Htext. unfold diagnosisCodes.
  destruct Hpad as [|code piece codes pieces Hp Hps]; [reflexivity|].
  rewrite split_comma_join.
  - assert (H : Forall2 padded (code :: codes) (piece :: pieces))
      by (constructor; assumption).
    clear Hp Hps Htext. induction H as [|c p cs ps Hp _ IH]; [reflexivity|].
    inversion Hclean as [|? ? (Hne & _ & Ht) Hcs]; subst.
    cbn [map List.filter]. rewrite (padded_trim c p Hp), Ht.
    destruct c; [contradiction|]. cbn [truthy_string].
    f_equal. apply IH, Hcs.
  - discriminate.
  - assert (H : Forall2 padded (code :: codes) (piece :: pieces))
      by (constructor; assumption).
    clear Hp Hps Htext. induction H as [|c p cs ps Hp _ IH]; [constructor|].
    inversion Hclean as [|? ? (_ & Hcf & _) Hcs]; subst.
    constructor; [apply (padded_comma_free c p Hp Hcf) | apply IH, Hcs].
Qed.

Lemma diagnosis_codes_round_trip_sample :
  Types.diagnosis_codes
    (handleSubmit (setDiagnosisCodes sampleForm (str "E11.9, I10 "))
       sampleProcedures)
  = [str "E11.9"; str "I10"].
Proof.
  apply (diagnosis_codes_round_trip _ _ [str "E11.9"; str "I10"]
           [str "E11.9"; str " I10 "]).
  - repeat constructor; discriminate.
  - constructor; [|constructor; [|constructor]].
    + exists [], []. repeat split.
    + exists (str " "), (str " "). repeat split.
  - reflexivity.
Defined.

(** ** The rows of the form *)

Lemma filter_index_all {A} (keep : nat -> bool) (i : nat) (l : list A) :
  (forall k, i <= k < i + List.length l -> keep k = true) ->
  filter_index keep i l = l.
Proof.
  revert i. induction l as [|x l IH]; intros i H; simpl; [reflexivity|].
  rewrite (H i) by (simpl; lia). f_equal.
  apply IH. intros k Hk. apply H. simpl. lia.
Qed.

Lemma filter_index_nth {A} (index i : nat) (l : list A) (j : nat) :
  i <= index ->
  nth_error (filter_index (fun k => negb (Nat.eqb k index)) i l) j
  = if (j + i <? index)%nat then nth_error l j else nth_error l (S j).
Proof.
  revert i j. induction l as [|x l IH]; intros i j Hi.
  - simpl. destruct (j + i <? index)%nat; destruct j; reflexivity.
  - simpl. destruct (Nat.eqb_spec i index) as [E|E]; simpl.
    + subst. rewrite filter_index_all.
      * destruct (Nat.ltb_spec (j + index) index); [lia | reflexivity].
      * intros k Hk. apply negb_true_iff, Nat.eqb_neq. lia.
    + destruct j as [|j]; simpl.
      * destruct (Nat.ltb_spec i index); [reflexivity | lia].
      * rewrite IH by lia.
        replace (j + S i)%nat with (S (j + i)) by lia. reflexivity.
Qed.

Lemma removeProcedure_nth (index : nat) (procedures : list ProcedureRow)
    (j : nat) :
  nth_error (removeProcedure index procedures) j
  = if (j <? index)%nat then nth_error procedures j
    else nth_error procedures (S j).
Proof.
  unfold removeProcedure.
  rewrite filter_index_nth by lia. rewrite Nat.add_0_r. reflexivity.
Qed.

Lemma removeProcedure_length (index : nat) (procedures : list ProcedureRow) :
  index < List.length procedures ->
  S (List.length (removeProcedure index procedures))
  = List.length procedures.
Proof.
  intros Hi.
  set (r := removeProcedure index procedures).
  assert (H1 : nth_error r (List.length procedures - 1) = None).
  { unfold r. rewrite removeProcedure_nth.
    destruct (Nat.ltb_spec (List.length procedures - 1) index).
    - lia.
    - apply nth_error_None. lia. }
  apply nth_error_None in H1.
  destruct (List.length procedures) as [|n] eqn:E; [lia|].
  destruct n as [|n]; [lia|].
  assert (H2 : nth_error r n <> None).
  { unfold r. rewrite removeProcedure_nth.
    destruct (Nat.ltb_spec n index); apply nth_error_Some; lia. }
  apply nth_error_Some in H2. lia.
Qed.

(** X7. [removeProcedure] drops the row at the index and nothing
    else: rows before it stay in place, rows after it move up by one;
    an index past the rows changes nothing. *)
Theorem removeProcedure_rows (index : nat) (procedures : list ProcedureRow) :
  (forall j, nth_error (removeProcedure index procedures) j
             = if (j <? index)%nat then nth_error procedures j
               else nth_error procedures (S j))
  /\ (index < List.length procedures ->
      S (List.length (removeProcedure index procedures))
      = List.length procedures)
  /\ (List.length procedures <= index ->
      removeProcedure index procedures = procedures).
Proof.
  split; [apply removeProcedure_nth|].
  split; [apply removeProcedure_length|].
  intros Hi. unfold removeProcedure. apply filter_index_all.
  intros k Hk. apply negb_true_iff, Nat.eqb_neq. lia.
Qed.

Lemma removeProcedure_rows_sample :
  removeProcedure 0 invalidProcedures = sampleProcedures.
Proof.
  assert (H : S (List.length (removeProcedure 0 invalidProcedures)) = 2).
  { apply (removeProcedure_rows 0 invalidProcedures). simpl. lia. }
  reflexivity.
Defined.

(** X8. Removing the row that [addProcedure] has just appended gives
    back the rows as they were. *)
Theorem add_then_remove (procedures : list ProcedureRow) :
  removeProcedure (List.length procedures) (addProcedure procedures)
  = procedures.
Proof.
  apply nth_error_ext. intros j.
  rewrite removeProcedure_nth. unfold addProcedure.
  destruct (Nat.ltb_spec j (List.length procedures)).
  - apply nth_error_app1. assumption.
  - rewrite (proj2 (nth_error_None procedures j)) by lia.
    apply nth_error_None. rewrite length_app. simpl. lia.
Qed.

Lemma replace_at_length {A} (i : nat) (x : A) (l : list A) :
  List.length (replace_at i x l) = List.length l.
Proof.
  revert i. induction l as [|y l IH]; intros [|i]; simpl; auto.
Qed.

Lemma replace_at_nth {A} (i : nat) (x : A) (l : list A) (j : nat) :
  i < List.length l ->
  nth_error (replace_at i x l) j
  = if Nat.eqb j i then Some x else nth_error l j.
Proof.
  revert i j. induction l as [|y l IH]; intros i j Hi; simpl in Hi; [lia|].
  destruct i as [|i], j as [|j]; simpl; try reflexivity.
  apply IH. lia.
Qed.

Lemma getField_setField (row : ProcedureRow) (f g : Field) (v : jsstring) :
  getField (setField row f v) g
  = if same_field g f then v else getField row g.
Proof. destruct f, g; reflexivity. Qed.

(** X9. [updateProcedure] on a row of the form sets the one field of
    that row to the value and leaves every other field of every row,
    and the number of rows, as they were. *)
Theorem updateProcedure_rows
    (index : nat) (field : Field) (value : jsstring)
    (procedures : list ProcedureRow) :
  index < List.length procedures ->
  exists updated,
    updateProcedure index field value procedures = Some updated
    /\ List.length updated = List.length procedures
    /\ forall j g,
         option_map (fun row => getField row g) (nth_error updated j)
         = if Nat.eqb j index && same_field g field
           then Some value
           else option_map (fun row => getField row g)
                  (nth_error procedures j).
Proof.
  intros Hi. unfold updateProcedure.
  destruct (nth_error procedures index) as [row|] eqn:E.
  - eexists. split; [reflexivity|]. split; [apply replace_at_length|].
    intros j g. rewrite replace_at_nth by exact Hi.
    destruct (Nat.eqb_spec j index) as [->|Hj]; simpl; [|reflexivity].
    rewrite E. simpl. rewrite getField_setField.
    destruct (same_field g field); reflexivity.
  - apply nth_error_None in E. lia.
Qed.

Lemma updateProcedure_rows_sample :
  exists updated,
    updateProcedure 1 chargeField (str "140") invalidProcedures = Some updated
    /\ List.length updated = 2.
Proof.
  destruct (updateProcedure_rows 1 chargeField (str "140") invalidProcedures)
    as (updated & Hu & Hl & _); [simpl; lia|].
  exists updated. split; [exact Hu | exact Hl].
Defined.

Lemma step_keeps_rows (procedures procedures' : list ProcedureRow)
    (ev : event) :
  procedures <> [] -> step procedures ev = Some procedures' ->
  procedures' <> [].
Proof.
  intros Hne. destruct ev as [|index|index field value| |]; simpl.
  - intros H; inversion H. unfold addProcedure.
    intros E. apply app_eq_nil in E. destruct E; discriminate.
  - destruct (Nat.ltb_spec 1 (List.length procedures)); simpl; [|discriminate].
    destruct (Nat.ltb_spec index (List.length procedures)); [|discriminate].
    intros H'; inversion H'; subst.
    pose proof (removeProcedure_length index procedures ltac:(lia)) as Hl.
    intros E. rewrite E in Hl. simpl in Hl. lia.
  - unfold updateProcedure.
    destruct (nth_error procedures index); [|discriminate].
    intros H; inversion H.
    intros E. apply (f_equal (@List.length _)) in E.
    rewrite replace_at_length in E. destruct procedures; [contradiction|discriminate].
  - intros H; inversion H. discriminate.
  - intros H; inversion H. discriminate.
Qed.

(** X10. Whatever the user does with the add, remove and load
    buttons and the inputs, the form keeps at least one row, so a
    submitted claim has at least one procedure entry. *)
Theorem form_keeps_a_row (events : list event) (formData : FormData)
    (procedures : list ProcedureRow) :
  after events initialProcedures = Some procedures ->
  Types.procedure_codes (handleSubmit formData procedures) <> [].
Proof.
  intros H. simpl.
  assert (Hne : procedures <> []).
  { assert (G : forall start, start <> [] ->
                  after events start = Some procedures -> procedures <> []).
    { clear H. induction events as [|ev events IH]; intros start Hs; simpl.
      - intros E; inversion E; subst. exact Hs.
      - destruct (step start ev) as [next|] eqn:E; [|discriminate].
        apply IH. eapply step_keeps_rows; eassumption. }
    apply (G initialProcedures); [discriminate | exact H]. }
  destruct procedures; [contradiction | discriminate].
Qed.

Lemma form_keeps_a_row_sample :
  Types.procedure_codes
    (handleSubmit sampleForm
       [ {| cpt := str "99213"; modifiers := []; units := str "1";
            charge := [] |} ]) <> [].
Proof.
  apply (form_keeps_a_row
           [clickAdd; typeIn 1 cptField (str "99213"); clickRemove 0]).
  reflexivity.
Defined.

End ClaimInputFacts.

(* ================================================================== *)
(** * Facts about the page handlers *)
(* ================================================================== *)

Module HomeFacts.

Import JS Types Handler Home.

(** C8. A submission issues the one request [validateClaim(claimData)].
    When it rejects, the page is left with no validation result and
    with an error message; when it resolves, the page holds exactly the
    returned result, the submitted claim, and no error.  Whatever result
    an earlier validation left is gone after a failure. *)
Theorem handleValidate_settles
    (ValidationResult : Type)
    (api : request -> settled ValidationResult)
    (claimData : Claim) (s : State ValidationResult) :
  let o := submit api claimData s in
  requests o = [validateClaim claimData]
  /\ isLoading (final o) = false
  /\ match api (validateClaim claimData) with
     | Resolved result =>
         validationResult (final o) = Some result
         /\ claim (final o) = Some claimData
         /\ error (final o) = None
     | Rejected err =>
         validationResult (final o) = None
         /\ error (final o) <> None
         /\ error (final o)
            = Some (message_or (str "Validation failed") err)
         /\ claim (final o) = claim s
     end.
Proof.
  unfold submit, handleValidate. simpl.
  destruct (api (validateClaim claimData)) as [result|err]; simpl;
    repeat split; discriminate.
Qed.

(** The claim that reaches [validateClaim] is the one [handleSubmit]
    built from the form. *)
Lemma submitForm_request
    (ValidationResult : Type)
    (api : request -> settled ValidationResult)
    (formData : ClaimInput.FormData)
    (procedures : list ClaimInput.ProcedureRow)
    (s : State ValidationResult) :
  requests (submitForm api formData procedures s)
  = [validateClaim (ClaimInput.handleSubmit formData procedures)].
Proof.
  unfold submitForm, submit, handleValidate.
  cbn [run requests].
  destruct (api _); reflexivity.
Qed.

(** A result on display, then a failing validation: the result is gone. *)
Example stale_result_cleared :
  let shown :=
    {| claim := None; validationResult := Some 7; isLoading := false;
       error := None |} in
  let c := ClaimInput.handleSubmit ClaimInput.sampleForm
             ClaimInput.sampleProcedures in
  validationResult (final (submit (fun _ => Rejected OtherValue) c shown))
  = None.
Proof. reflexivity. Qed.

(** ** What the page shows *)

(** X12. What the page shows after a submission.  When the request
    resolves: the results with the chat, which gets the id of the
    submitted claim and the returned result, and neither the error nor
    the placeholder.  When it rejects: no results; the error panel if
    the message is not empty, and the placeholder if it is. *)
Theorem submit_view (ValidationResult : Type)
    (api : request -> settled ValidationResult)
    (claimData : Claim) (s : State ValidationResult) :
  let s' := final (submit api claimData s) in
  match api (validateClaim claimData) with
  | Resolved result =>
      chatProps s' = Some (Types.claim_id claimData, result)
      /\ showsError s' = false
      /\ showsReady s' = false
  | Rejected err =>
      chatProps s' = None
      /\ showsError s'
         = truthy_string (message_or (str "Validation failed") err)
      /\ showsReady s'
         = negb (truthy_string (message_or (str "Validation failed") err))
  end.
Proof.
  unfold submit, handleValidate. cbn -[str].
  destruct (api (validateClaim claimData)) as [result|err]; cbn -[str].
  - repeat split.
  - unfold showsReady, showsResults, chatProps, showsError. cbn -[str].
    repeat split.
Qed.




End HomeFacts.

Module ChatInterfaceFacts.

Import JS JSFacts Types Handler ChatInterface.

(** Clicks on suggestions write the question field only. *)
Lemma clicks_frame (qs : list jsstring) (s : State) :
  let s' := apply_all apply (suggestion_clicks qs) s in
  conversation s' = conversation s
  /\ isLoading s' = isLoading s
  /\ error s' = error s.
Proof.
  revert s. induction qs as [|q qs IH]; intros s.
  - repeat split.
  - exact (IH (apply (setQuestion q) s)).
Qed.

(** C9. When the question is not blank, [handleAsk] issues the one
    request [askQuestion(claimId, question)].  If it resolves, the
    conversation is the earlier one followed by one new entry, the
    submitted question with the returned answer, and the question
    field is empty; if it rejects, the conversation is as it was.
    Clicks on suggested questions while the request is pending change
    neither. *)
Theorem handleAsk_settles
    (api : request -> settled response)
    (claimId : jsstring) (clicks : list jsstring) (s : State) :
  truthy_string (trim (question s)) = true ->
  let o := send api claimId clicks s in
  requests o = [askQuestion claimId (question s)]
  /\ isLoading (final o) = false
  /\ match api (askQuestion claimId (question s)) with
     | Resolved r =>
         conversation (final o)
         = conversation s
           ++ [ {| Message.question := question s;
                   Message.answer := answer r |} ]
         /\ question (final o) = []
         /\ error (final o) = None
     | Rejected err =>
         conversation (final o) = conversation s
         /\ error (final o)
            = Some (message_or (str "Failed to get answer") err)
     end.
Proof.
  intros Hq. unfold send, handleAsk. rewrite Hq.
  destruct (clicks_frame clicks
              (apply (setError None) (apply (setIsLoading true) s)))
    as (Hc & _ & He).
  cbn -[apply_all suggestion_clicks str] in *.
  destruct (api (askQuestion claimId (question s))) as [r|err];
    cbn -[apply_all suggestion_clicks str]; auto.
Qed.

(** The first question of a conversation, answered. *)
Lemma handleAsk_settles_first :
  conversation
    (final (send (fun _ => Resolved {| answer := str "Upcoding." |})
              (str "CLM002") [str "How can I fix these issues?"]
              firstQuestion))
  = [ {| Message.question := str "Why was this claim flagged?";
         Message.answer := str "Upcoding." |} ].
Proof.
  destruct (handleAsk_settles
              (fun _ => Resolved {| answer := str "Upcoding." |})
              (str "CLM002") [str "How can I fix these issues?"]
              firstQuestion eq_refl)
    as (_ & _ & H & _).
  exact H.
Defined.

(** C10. When the question is empty or white space throughout,
    [handleAsk] issues no request and leaves the state of the component
    as it was. *)
Theorem handleAsk_blank
    (api : request -> settled response)
    (claimId : jsstring) (clicks : list jsstring) (s : State) :
  forallb isWhiteSpace (question s) = true ->
  send api claimId clicks s = {| final := s; requests := [] |}.
Proof.
  intros Hq. unfold send, handleAsk.
  rewrite truthy_trim, Hq. reflexivity.
Qed.

Lemma handleAsk_blank_spaces :
  send (fun _ => Rejected OtherValue) (str "CLM001") [] blankQuestion
  = {| final := blankQuestion; requests := [] |}.
Proof.
  apply handleAsk_blank. reflexivity.
Defined.

(** ** The chat over a session *)

Lemma last_cons {A} (q : A) (qs : list A) (d : A) :
  last (q :: qs) d = last qs q.
Proof.
  revert q d. induction qs as [|x qs IH]; intros q d; [reflexivity|].
  change (last (q :: x :: qs) d) with (last (x :: qs) d).
  rewrite !IH. reflexivity.
Qed.

Lemma clicks_state (qs : list jsstring) (s : State) :
  apply_all apply (suggestion_clicks qs) s
  = {| question := last qs (question s); conversation := conversation s;
       isLoading := isLoading s; error := error s |}.
Proof.
  revert s. induction qs as [|q qs IH]; intros s.
  - destruct s; reflexivity.
  - rewrite last_cons.
    change (apply_all apply (suggestion_clicks (q :: qs)) s)
      with (apply_all apply (suggestion_clicks qs) (apply (setQuestion q) s)).
    rewrite IH. reflexivity.
Qed.

Lemma send_final (api : request -> settled response)
    (claimId : jsstring) (clicks : list jsstring) (s : State) :
  final (send api claimId clicks s)
  = if truthy_string (trim (question s)) then
      match api (askQuestion claimId (question s)) with
      | Resolved r =>
          {| question := [];
             conversation :=
               conversation s
               ++ [ {| Message.question := question s;
                       Message.answer := answer r |} ];
             isLoading := false; error := None |}
      | Rejected err =>
          {| question := last clicks (question s);
             conversation := conversation s;
             isLoading := false;
             error := Some (message_or (str "Failed to get answer") err) |}
      end
    else s.
Proof.
  unfold send, handleAsk.
  destruct (truthy_string (trim (question s))); [|reflexivity].
  cbn -[apply_all suggestion_clicks str]. rewrite clicks_state.
  destruct (api (askQuestion claimId (question s))); reflexivity.
Qed.

(** X14. When the request rejects, the question stays in the field
    (or the suggestion clicked last while waiting), so with no click
    the send button is enabled again for a retry. *)
Theorem failed_send_keeps_question
    (api : request -> settled response)
    (claimId : jsstring) (clicks : list jsstring) (s : State) (err : thrown) :
  truthy_string (trim (question s)) = true ->
  api (askQuestion claimId (question s)) = Rejected err ->
  question (final (send api claimId clicks s)) = last clicks (question s)
  /\ sendDisabled (final (send api claimId [] s)) = false.
Proof.
  intros Hq Hr. rewrite !send_final, Hq, Hr. split; [reflexivity|].
  unfold sendDisabled. simpl. rewrite Hq. reflexivity.
Qed.

Lemma failed_send_keeps_question_first :
  question (final (send (fun _ => Rejected OtherValue) (str "CLM002") []
                     firstQuestion))
  = str "Why was this claim flagged?".
Proof.
  apply (failed_send_keeps_question (fun _ => Rejected OtherValue)
           (str "CLM002") [] firstQuestion OtherValue); reflexivity.
Defined.

Lemma pressKey_final (api : request -> settled response)
    (claimId : jsstring) (e : KeyboardEvent) (clicks : list jsstring)
    (s : State) :
  pressKey api claimId e clicks s
  = if string_eqb (key e) (str "Enter") && negb (shiftKey e)
    then send api claimId clicks s
    else {| final := s; requests := [] |}.
Proof.
  unfold pressKey, handleKeyPress.
  destruct (string_eqb (key e) (str "Enter") && negb (shiftKey e));
    reflexivity.
Qed.

(** X15. A key other than Enter, and Enter with Shift, sends nothing,
    changes nothing and does not call [preventDefault]. *)
Theorem other_keys_do_nothing
    (api : request -> settled response)
    (claimId : jsstring) (e : KeyboardEvent) (clicks : list jsstring)
    (s : State) :
  key e <> str "Enter" \/ shiftKey e = true ->
  pressKey api claimId e clicks s = {| final := s; requests := [] |}
  /\ fst (handleKeyPress e claimId (question s) (conversation s)) = false.
Proof.
  intros H.
  assert (G : string_eqb (key e) (str "Enter") && negb (shiftKey e) = false).
  { destruct H as [H|H].
    - destruct (string_eqb (key e) (str "Enter")) eqn:E; [|reflexivity].
      apply string_eqb_eq in E. contradiction.
    - rewrite H. apply andb_false_r. }
  rewrite pressKey_final. unfold handleKeyPress. rewrite G. split; reflexivity.
Qed.

Lemma other_keys_do_nothing_shift_enter :
  pressKey (fun _ => Rejected OtherValue) (str "CLM002")
    {| key := str "Enter"; shiftKey := true |} [] firstQuestion
  = {| final := firstQuestion; requests := [] |}.
Proof.
  apply (other_keys_do_nothing (fun _ => Rejected OtherValue) (str "CLM002")
           {| key := str "Enter"; shiftKey := true |} [] firstQuestion).
  right. reflexivity.
Defined.

Lemma does_appends (api : request -> settled response) (claimId : jsstring)
    (s : State) (u : user) :
  exists added,
    conversation (does api claimId s u) = conversation s ++ added
    /\ Forall (answered api claimId) added.
Proof.
  assert (Hsend : forall clicks, exists added,
    conversation (final (send api claimId clicks s)) = conversation s ++ added
    /\ Forall (answered api claimId) added).
  { intros clicks. rewrite send_final.
    destruct (truthy_string (trim (question s))) eqn:Hq.
    - destruct (api (askQuestion claimId (question s))) as [r|err] eqn:Hr.
      + eexists. split; [reflexivity|].
        constructor; [|constructor]. split; [exact Hq|].
        exists r. split; [exact Hr | reflexivity].
      + exists []. rewrite app_nil_r. split; [reflexivity | constructor].
    - exists []. rewrite app_nil_r. split; [reflexivity | constructor]. }
  destruct u as [q|clicks|e clicks]; cbn [does].
  - exists []. rewrite app_nil_r. split; [reflexivity | constructor].
  - apply Hsend.
  - rewrite pressKey_final.
    destruct (string_eqb (key e) (str "Enter") && negb (shiftKey e)).
    + apply Hsend.
    + exists []. rewrite app_nil_r. split; [reflexivity | constructor].
Qed.

Lemma session_grows (api : request -> settled response)
    (claimId : jsstring) (us : list user) (s : State) :
  exists added,
    conversation (session api claimId us s) = conversation s ++ added
    /\ Forall (answered api claimId) added.
Proof.
  unfold session. revert s. induction us as [|u us IH]; intros s.
  - exists []. rewrite app_nil_r. split; [reflexivity | constructor].
  - cbn [fold_left].
    destruct (does_appends api claimId s u) as (a1 & H1 & F1).
    destruct (IH (does api claimId s u)) as (a2 & H2 & F2).
    exists (a1 ++ a2). rewrite H2, H1, app_assoc.
    split; [reflexivity | apply Forall_app; split; assumption].
Qed.

(** X16. Over any series of typing, clicking and sending, the
    conversation only grows at its end: the earlier messages stay, in
    order, and every message added has a question that is not blank and
    the answer that [askQuestion] resolved to for it. *)
Theorem session_appends (api : request -> settled response)
    (claimId : jsstring) (us : list user) (s : State) :
  exists added,
    conversation (session api claimId us s) = conversation s ++ added
    /\ Forall (answered api claimId) added.
Proof. apply session_grows. Qed.

(** X17. Within one mounted chat, once the conversation holds a
    message, no series of text entries, send presses and key presses in
    the chat brings the suggested questions back. *)
Theorem suggestions_stay_hidden (api : request -> settled response)
    (claimId : jsstring) (us : list user) (s : State) :
  suggestionsShown s = false ->
  suggestionsShown (session api claimId us s) = false.
Proof.
  unfold suggestionsShown. intros H.
  destruct (session_grows api claimId us s) as (added & -> & _).
  apply negb_false_iff in H. apply Nat.ltb_lt in H.
  apply negb_false_iff, Nat.ltb_lt. rewrite length_app. lia.
Qed.

Lemma suggestions_stay_hidden_sample :
  suggestionsShown
    (session (fun _ => Rejected OtherValue) (str "CLM002")
       [entersText (str "And now?"); pressesSend []]
       {| question := []; isLoading := false; error := None;
          conversation :=
            [ {| Message.question := str "Why was this claim flagged?";
                 Message.answer := str "Upcoding." |} ] |})
  = false.
Proof.
  apply suggestions_stay_hidden. reflexivity.
Defined.

End ChatInterfaceFacts.

(* ================================================================== *)
(** * Facts about the validation core *)
(* ================================================================== *)

Module OrchestratorFacts.

Import JS Types Orchestrator.

(** ** The aggregation order *)

Lemma comes_before_precedes (a b : tagged) :
  comes_before a b = true -> precedes a b.
Proof.
  unfold comes_before, precedes.
  repeat match goal with
         | |- context [(?x <? ?y)%nat] => destruct (Nat.ltb_spec x y)
         | |- context [(?x <=? ?y)%nat] => destruct (Nat.leb_spec x y)
         end; intros; try discriminate; lia.
Qed.

Lemma comes_before_total (a b : tagged) :
  comes_before a b = false -> precedes b a.
Proof.
  unfold comes_before, precedes.
  repeat match goal with
         | |- context [(?x <? ?y)%nat] => destruct (Nat.ltb_spec x y)
         | |- context [(?x <=? ?y)%nat] => destruct (Nat.leb_spec x y)
         end; intros; try discriminate; lia.
Qed.

Lemma precedes_trans (a b c : tagged) :
  precedes a b -> precedes b c -> precedes a c.
Proof. unfold precedes. lia. Qed.

(** Two findings that precede each other carry the same key. *)
Lemma precedes_antisym (a b : tagged) :
  precedes a b -> precedes b a ->
  reg a = reg b /\ pos a = pos b.
Proof. unfold precedes. lia. Qed.

Lemma insert_perm (x : tagged) (l : list tagged) :
  Permutation (insert x l) (x :: l).
Proof.
  induction l as [|y r IH]; simpl; [reflexivity|].
  destruct (comes_before x y); [reflexivity|].
  rewrite IH. apply perm_swap.
Qed.

Lemma sort_perm (l : list tagged) : Permutation (sort l) l.
Proof.
  induction l as [|x l IH]; simpl; [reflexivity|].
  rewrite insert_perm. apply perm_skip, IH.
Qed.

Lemma insert_sorted (x : tagged) (l : list tagged) :
  StronglySorted precedes l -> StronglySorted precedes (insert x l).
Proof.
  induction l as [|y r IH]; simpl; intros Hs.
  - constructor; constructor.
  - inversion Hs as [|y' r' Hr Hy]; subst.
    destruct (comes_before x y) eqn:Hxy.
    + constructor; [exact Hs|].
      apply comes_before_precedes in Hxy.
      constructor; [exact Hxy|].
      eapply Forall_impl; [|exact Hy].
      intros z Hz. eapply precedes_trans; eassumption.
    + constructor; [apply IH, Hr|].
      apply (Permutation_Forall (Permutation_sym (insert_perm x r))).
      constructor; [apply comes_before_total, Hxy | exact Hy].
Qed.

Lemma sort_sorted (l : list tagged) : StronglySorted precedes (sort l).
Proof.
  induction l as [|x l IH]; simpl; [constructor | apply insert_sorted, IH].
Qed.

(** A list has at most one sorted arrangement when findings with the
    same key are the same finding. *)
Lemma sorted_unique (l1 l2 : list tagged) :
  StronglySorted precedes l1 -> StronglySorted precedes l2 ->
  Permutation l1 l2 ->
  (forall a b, In a l1 -> In b l1 -> reg a = reg b -> pos a = pos b -> a = b) ->
  l1 = l2.
Proof.
  revert l2. induction l1 as [|a l1 IH]; intros l2 H1 H2 Hp Hkey.
  - apply Permutation_nil in Hp. congruence.
  - destruct l2 as [|b l2].
    + apply Permutation_sym, Permutation_nil in Hp. discriminate.
    + inversion H1 as [|? ? H1' Ha]; subst.
      inversion H2 as [|? ? H2' Hb]; subst.
      assert (Hab : a = b).
      { assert (Hina : In a (b :: l2))
          by (eapply Permutation_in; [exact Hp | left; reflexivity]).
        assert (Hinb : In b (a :: l1))
          by (eapply Permutation_in;
              [apply Permutation_sym, Hp | left; reflexivity]).
        destruct Hina as [Hina|Hina]; [congruence|].
        destruct Hinb as [Hinb|Hinb]; [congruence|].
        rewrite Forall_forall in Ha, Hb.
        destruct (precedes_antisym a b (Ha _ Hinb) (Hb _ Hina)) as [Hr Hq].
        apply Hkey; auto; [left; reflexivity | right; exact Hinb]. }
      subst b. f_equal.
      apply IH; auto.
      * eapply Permutation_cons_inv, Hp.
      * intros x y Hx Hy. apply Hkey; right; assumption.
Qed.

Section Pipeline.

Variable validators : list (Claim -> option (list Finding)).

(** What arrives at the fan-in point is tagged with where it comes
    from. *)
Lemma in_tag_from (i j : nat) (fs : list Finding) (t : tagged) :
  In t (tag_from i j fs) ->
  reg t = i /\ (j <= pos t)%nat /\ nth_error fs (pos t - j) = Some (finding t).
Proof.
  revert j. induction fs as [|f r IH]; intros j; simpl; [tauto|].
  intros [H|H].
  - subst t. simpl. rewrite Nat.sub_diag. auto.
  - destruct (IH _ H) as (Hr & Hj & Hn).
    split; [exact Hr|]. split; [lia|].
    replace (pos t - j)%nat with (S (pos t - S j)) by lia. exact Hn.
Qed.

Lemma in_arrivals (completion : list nat) (c : Claim) (t : tagged) :
  In t (arrivals validators completion c) ->
  nth_error (output validators c (reg t)) (pos t) = Some (finding t).
Proof.
  unfold arrivals. rewrite in_flat_map. intros [i [_ H]].
  apply in_tag_from in H. destruct H as (Hr & _ & Hn).
  rewrite Nat.sub_0_r in Hn. congruence.
Qed.

Lemma arrivals_key (completion : list nat) (c : Claim) (a b : tagged) :
  In a (arrivals validators completion c) ->
  In b (arrivals validators completion c) ->
  reg a = reg b -> pos a = pos b -> a = b.
Proof.
  intros Ha Hb Hr Hq.
  apply in_arrivals in Ha, Hb. rewrite Hr, Hq in Ha.
  destruct a, b; simpl in *. subst. congruence.
Qed.

Lemma aggregate_order_independent (o1 o2 : list nat) (c : Claim) :
  Permutation o1 o2 ->
  aggregate validators o1 c = aggregate validators o2 c.
Proof.
  intros Hp. unfold aggregate.
  apply sorted_unique; try apply sort_sorted.
  - rewrite !sort_perm. unfold arrivals. apply Permutation_flat_map, Hp.
  - intros a b Ha Hb.
    apply (arrivals_key o1 c a b);
      eapply Permutation_in; try apply sort_perm; assumption.
Qed.

Lemma sum_weights_nonneg (fs : list Finding) : (0 <= sum_weights fs)%Z.
Proof.
  induction fs as [|f fs IH]; simpl; [lia|].
  destruct (severity f); simpl; lia.
Qed.

Lemma sum_weights_map (fs : list Finding) :
  sum_weights fs
  = fold_right Z.add 0%Z (map (fun f => weight (severity f)) fs).
Proof. induction fs as [|f fs IH]; simpl; congruence. Qed.

End Pipeline.

(** C4. Unless every validator failed, [validate] returns a result
    whose risk score is the lesser of 100 and the sum of the severity
    weights of its findings plus the saturation term for the findings
    beyond the third; with a saturation term that is never negative,
    the score lies between 0 and 100. *)
Theorem validate_risk_score
    (saturation : nat -> Z)
    (validators : list (Claim -> option (list Finding)))
    (completion : list nat) (c : Claim) :
  (forall k, (0 <= saturation k)%Z) ->
  all_failed validators c = false ->
  exists r,
    validate saturation validators completion c = inr r
    /\ (0 <= risk_score r <= 100)%Z
    /\ risk_score r
       = Z.min 100
           (fold_right Z.add 0%Z
              (map (fun f => weight (severity f)) (issues r))
            + saturation (List.length (issues r) - 3)).
Proof.
  intros Hsat Hrun. unfold validate. rewrite Hrun.
  eexists. split; [reflexivity|]. simpl.
  unfold score. rewrite <- sum_weights_map.
  pose proof (sum_weights_nonneg
                (map finding (aggregate validators completion c))).
  pose proof (Hsat (List.length
                      (map finding (aggregate validators completion c)) - 3)%nat).
  split; [lia | reflexivity].
Qed.

(** Two high and two medium findings: 25 + 25 + 12 + 12, and 2 for the
    one finding beyond the third. *)
Lemma validate_risk_score_sample :
  exists r,
    validate sample_saturation sample_validators [4; 0; 3; 1; 2] sample_claim
      = inr r
    /\ (0 <= risk_score r <= 100)%Z
    /\ risk_score r = 76%Z.
Proof.
  destruct (validate_risk_score sample_saturation sample_validators
              [4; 0; 3; 1; 2] sample_claim
              (fun k => ltac:(unfold sample_saturation; lia)) eq_refl)
    as (r & Hr & Hb & He).
  exists r. split; [exact Hr|]. split; [exact Hb|].
  injection Hr as <-. reflexivity.
Defined.

(** C5. Unless every validator failed, [validate] returns a result
    whose status is rejected exactly when a finding is critical or the
    score is at least 90; flagged exactly when it is not rejected and
    the score is at least 20; passed exactly otherwise. *)
Theorem validate_status
    (saturation : nat -> Z)
    (validators : list (Claim -> option (list Finding)))
    (completion : list nat) (c : Claim) :
  all_failed validators c = false ->
  exists r,
    validate saturation validators completion c = inr r
    /\ let severe :=
         (exists f, In f (issues r) /\ severity f = critical)
         \/ (90 <= risk_score r)%Z in
       (overall_status r = rejected <-> severe)
       /\ (overall_status r = flagged
           <-> ~ severe /\ (20 <= risk_score r)%Z)
       /\ (overall_status r = passed
           <-> ~ severe /\ (risk_score r < 20)%Z).
Proof.
  intros Hrun. unfold validate. rewrite Hrun.
  eexists. split; [reflexivity|]. simpl.
  set (fs := map finding (aggregate validators completion c)).
  set (n := score saturation fs).
  assert (Hcrit : existsb is_critical fs = true
                  <-> exists f, In f fs /\ severity f = critical).
  { rewrite existsb_exists. unfold is_critical.
    split; intros [f [Hin Hf]]; exists f; split; auto;
      destruct (severity f); congruence. }
  unfold status_of.
  destruct (existsb is_critical fs) eqn:Hc; simpl.
  - assert (exists f, In f fs /\ severity f = critical) by (apply Hcrit; auto).
    intuition discriminate.
  - assert (~ exists f, In f fs /\ severity f = critical)
      by (rewrite <- Hcrit; discriminate).
    destruct (Z.leb_spec 90 n); destruct (Z.leb_spec 20 n);
      intuition (discriminate || lia).
Qed.

Lemma validate_status_sample :
  exists r,
    validate sample_saturation sample_validators [4; 0; 3; 1; 2] sample_claim
      = inr r
    /\ overall_status r = flagged
    /\ (20 <= risk_score r)%Z.
Proof.
  destruct (validate_status sample_saturation sample_validators
              [4; 0; 3; 1; 2] sample_claim eq_refl)
    as (r & Hr & _ & Hf & _).
  exists r. split; [exact Hr|].
  injection Hr as <-. split; [reflexivity|].
  apply Hf. reflexivity.
Defined.

(** A critical finding rejects the claim whatever the score; the sample
    output of the README, one high finding shown with a score of 100,
    is rejected by this rule. *)
Example status_examples :
  status_of [modifier_finding] 40 = rejected
  /\ status_of [mismatch_finding] 100 = rejected
  /\ status_of [mismatch_finding] 25 = flagged
  /\ status_of [cost_finding] 12 = passed
  /\ status_of [] 0 = passed.
Proof. repeat split; reflexivity. Qed.

(** C6. For any two orders in which the validators complete, [validate]
    returns the same result, so the same list of findings in the same
    order: the tagged findings sorted by descending severity, then by
    registration index of the validator, then by place in its output,
    and they are all the findings of all the validators. *)
Theorem validate_order_independent
    (saturation : nat -> Z)
    (validators : list (Claim -> option (list Finding)))
    (o1 o2 : list nat) (c : Claim) :
  completion_order validators o1 ->
  completion_order validators o2 ->
  validate saturation validators o1 c = validate saturation validators o2 c
  /\ aggregate validators o1 c = aggregate validators o2 c
  /\ StronglySorted precedes (aggregate validators o1 c)
  /\ Permutation (aggregate validators o1 c)
       (arrivals validators (seq 0 (List.length validators)) c)
  /\ (forall r, validate saturation validators o1 c = inr r ->
        issues r = map finding (aggregate validators o1 c)).
Proof.
  unfold completion_order. intros H1 H2.
  assert (Hagg : aggregate validators o1 c = aggregate validators o2 c).
  { apply aggregate_order_independent.
    eapply Permutation_trans; [exact H1 | apply Permutation_sym, H2]. }
  split; [unfold validate; rewrite Hagg; reflexivity|].
  split; [exact Hagg|].
  split; [apply sort_sorted|].
  split.
  - unfold aggregate. rewrite sort_perm. unfold arrivals.
    apply Permutation_flat_map, H1.
  - unfold validate. destruct (all_failed validators c); [discriminate|].
    intros r H; inversion H; reflexivity.
Qed.

Lemma validate_order_independent_sample :
  validate sample_saturation strict_validators [4; 0; 3; 1; 2] sample_claim
  = validate sample_saturation strict_validators [2; 1; 0; 4; 3] sample_claim
  /\ map finding (aggregate strict_validators [4; 0; 3; 1; 2] sample_claim)
     = [modifier_finding; mismatch_finding; demographic_finding;
        cost_finding; cost_finding].
Proof.
  assert (P1 : completion_order strict_validators [4; 0; 3; 1; 2]).
  { unfold completion_order. simpl.
    apply (Permutation_cons_app [0; 1; 2; 3] []). simpl. apply perm_skip.
    apply (Permutation_cons_app [1; 2] []). simpl. reflexivity. }
  assert (P2 : completion_order strict_validators [2; 1; 0; 4; 3]).
  { unfold completion_order. simpl.
    apply (Permutation_cons_app [0; 1] [3; 4]). simpl.
    apply (Permutation_cons_app [0] [3; 4]). simpl.
    apply perm_skip, perm_swap. }
  destruct (validate_order_independent sample_saturation strict_validators
              [4; 0; 3; 1; 2] [2; 1; 0; 4; 3] sample_claim P1 P2)
    as (Hv & _).
  split; [exact Hv | reflexivity].
Defined.

End OrchestratorFacts.

Module ConversationServiceFacts.

Import JS Types ConversationService.
Import stdpp.gmap.

Lemma retained_lookup (claimId : jsstring) (history : list event)
    (store : gmap jsstring ConversationContext) (kept : bool) :
  (store !! claimId = None <-> kept = false) ->
  fold_left step history store !! claimId = None
  <-> fold_left
        (fun kept ev =>
           match ev with
           | Validated id _ =>
               if bool_decide (id = claimId) then true else kept
           | Evicted id =>
               if bool_decide (id = claimId) then false else kept
           | Restarted => false
           end)
        history kept = false.
Proof.
  revert store kept.
  induction history as [|ev history IH]; intros store kept H; simpl.
  - exact H.
  - apply IH. destruct ev as [id ctx|id|]; simpl.
    + case_bool_decide as Hid.
      * subst. rewrite lookup_insert_eq. split; discriminate.
      * rewrite lookup_insert_ne by exact Hid. exact H.
    + case_bool_decide as Hid.
      * subst. rewrite lookup_delete_eq. tauto.
      * rewrite lookup_delete_ne by exact Hid. exact H.
    + rewrite lookup_empty. tauto.
Qed.

(** No context is stored for a claim id exactly when validation has not
    been run for it, or its context was evicted since. *)
Lemma contexts_after_lookup (claimId : jsstring) (history : list event) :
  contexts_after history !! claimId = None
  <-> retained claimId history = false.
Proof.
  apply retained_lookup. rewrite lookup_empty. tauto.
Qed.

(** C7. For a claim id whose validation has not been run, or whose
    context has been evicted, [ask] fails with the not-found condition,
    which is not the internal error and not the backend failure. *)
Theorem ask_not_found
    (backend : ConversationContext -> jsstring -> option jsstring)
    (history : list event) (claimId question : jsstring) :
  retained claimId history = false ->
  ask backend (contexts_after history) claimId question = inl not_found
  /\ ask backend (contexts_after history) claimId question
     <> inl internal_error
  /\ ask backend (contexts_after history) claimId question
     <> inl backend_failure.
Proof.
  intros H. apply contexts_after_lookup in H.
  unfold ask. rewrite H. repeat split; discriminate.
Qed.

(** An id never validated, and an id validated and then evicted. *)
Lemma ask_not_found_sample :
  ask (fun _ _ => None) (contexts_after sample_history)
    (str "CLM404") (str "Why was this claim flagged?") = inl not_found
  /\ ask (fun _ _ => None) (contexts_after sample_history)
       (str "CLM001") (str "Why was this claim flagged?") = inl not_found.
Proof.
  split.
  - apply (ask_not_found (fun _ _ => None) sample_history
             (str "CLM404") (str "Why was this claim flagged?")).
    vm_compute. reflexivity.
  - apply (ask_not_found (fun _ _ => None) sample_history
             (str "CLM001") (str "Why was this claim flagged?")).
    vm_compute. reflexivity.
Defined.

(** With a context in place the failure of the backend is told apart
    from the missing context. *)
Example ask_backend_failure :
  ask (fun _ _ => None) (contexts_after sample_history)
    (str "CLM002") (str "Why was this claim flagged?") = inl backend_failure.
Proof.
  unfold ask.
  destruct (contexts_after sample_history !! str "CLM002") eqn:H.
  - reflexivity.
  - apply contexts_after_lookup in H. vm_compute in H. discriminate.
Qed.

End ConversationServiceFacts.

(* ================================================================== *)
(** * Facts about the display of results *)
(* ================================================================== *)

Module ValidationResultsFacts.

Import JS JSFacts ValidationResults.

Ltac switch_on s :=
  repeat match goal with
         | |- context [string_eqb s ?k] =>
             let E := fresh "E" in
             destruct (string_eqb s k) eqn:E;
             [apply string_eqb_eq in E; subst s|]
         end.

Ltac settle_switch :=
  cbn -[str]; split; intros H;
  first
    [ solve [left; reflexivity]
    | solve [reflexivity]
    | solve [right; split; reflexivity]
    | solve [vm_compute in H; discriminate H]
    | solve [destruct H as [H|[H1 H2]];
             [ try subst; vm_compute in *; congruence
             | vm_compute in H1, H2; congruence ]] ].

(** X18. The colours of the summary card tell the three statuses
    apart, from each other and from every other string, which gets the
    gray of the default branch. *)
Theorem status_colors_tell_apart (a b : jsstring) :
  getStatusColor a = getStatusColor b
  <-> a = b \/ (known_status a = false /\ known_status b = false).
Proof.
  unfold getStatusColor, known_status.
  switch_on a; switch_on b; settle_switch.
Qed.

(** X19. The colour of the severity badge tells the four severities
    apart, and from every other string; the icon is the same exactly
    when the colour is, or when both are the red circle that critical
    and high share. *)
Theorem severity_colors_and_icons (a b : jsstring) :
  (getSeverityColor a = getSeverityColor b
   <-> a = b \/ (known_severity a = false /\ known_severity b = false))
  /\ (getSeverityIcon a = getSeverityIcon b
      <-> getSeverityColor a = getSeverityColor b
          \/ (getSeverityIcon a = redCircle /\ getSeverityIcon b = redCircle)).
Proof.
  unfold getSeverityColor, getSeverityIcon, known_severity.
  switch_on a; switch_on b; split; settle_switch.
Qed.

End ValidationResultsFacts.
